(** * Bushnell watermark remover: the per-frame patch, the batch runner and
      the frame-rate probe of [watermark_remover.py], embedded in Rocq.

    Python integers are unbounded, so every coordinate is a [Z].  A decoded
    frame is the row-major grid that [cv2.imread] returns: a list of rows,
    each row a list of three-channel 8-bit pixels.  The frame directory is a
    finite map from paths to files.  Code that can raise returns a [result]. *)

From Stdlib Require Import ZArith Lia QArith Qabs Floats.
From Stdlib.Strings Require Import Byte.
From stdpp Require Import base option list strings gmap sorting.
From Stdlib Require Import Ascii.

Local Open Scope Z_scope.

(** ** Exceptions and results *)

Inductive exn : Type :=
| ValueError
| ZeroDivisionError
| CvError.

Inductive result (A : Type) : Type :=
| Ret (a : A)
| Raise (e : exn).

Arguments Ret {A} a.
Arguments Raise {A} e.

#[global] Instance exn_eq_dec : EqDecision exn.
Proof. solve_decision. Defined.

#[global] Instance result_eq_dec {A} `{EqDecision A} : EqDecision (result A).
Proof. solve_decision. Defined.

(** ** Configuration and rectangles *)

(** The six geometry arguments of [patch_frame], all [int]. *)
Record PatchConfig : Type := {
  patch_width : Z;
  patch_height : Z;
  patch_x : Z;
  patch_y : Z;
  mirror_height : Z;
  mirror_offset : Z
}.

(** A rectangle as the half-open row range [y_start, y_end) and column range
    [x_start, x_end), origin at the top-left, rows growing downwards. *)
Record Rect : Type := {
  y_start : Z;
  y_end : Z;
  x_start : Z;
  x_end : Z
}.

Definition rect_height (r : Rect) : Z := y_end r - y_start r.
Definition rect_width (r : Rect) : Z := x_end r - x_start r.

(** [wm] is the watermark area (the target), [mirror_src] the source of the
    mirrored upper part, [adj_src] the source of the lower part. *)
Record PatchGeometry : Type := {
  wm : Rect;
  mirror_src : Rect;
  adj_src : Rect
}.

(** The Bushnell defaults of the command line. *)
Definition bushnell : PatchConfig :=
  {| patch_width := 110; patch_height := 110; patch_x := 0; patch_y := 0;
     mirror_height := 54; mirror_offset := 56 |}.

(** ** Geometry (lines 94-131 of [patch_frame]) *)

Section Geometry.
Variable c : PatchConfig.
Variables height width : Z.

(** Line 94: [height < patch_height or width < patch_width + patch_x]. *)
Definition too_small : bool :=
  (height <? patch_height c) || (width <? patch_width c + patch_x c).

(** Line 117. *)
Definition adjacent_patch_height : Z := patch_height c - mirror_height c.

(** Lines 99-122, one assignment per field. *)
Definition geometry : PatchGeometry :=
  let wm_y_start := height - (patch_y c + patch_height c) in
  let wm_y_end := height - patch_y c in
  let wm_x_start := patch_x c in
  let wm_x_end := patch_x c + patch_width c in
  let mirror_src_y_start := wm_y_start - mirror_offset c in
  let mirror_src_y_end := wm_y_start - mirror_offset c + mirror_height c in
  let mirror_src_x_start := patch_x c in
  let mirror_src_x_end := patch_x c + patch_width c in
  let adj_src_y_start := wm_y_end - adjacent_patch_height in
  let adj_src_y_end := wm_y_end in
  let adj_src_x_start := patch_x c + patch_width c in
  let adj_src_x_end := patch_x c + 2 * patch_width c in
  {| wm := {| y_start := wm_y_start; y_end := wm_y_end;
              x_start := wm_x_start; x_end := wm_x_end |};
     mirror_src := {| y_start := mirror_src_y_start; y_end := mirror_src_y_end;
                      x_start := mirror_src_x_start; x_end := mirror_src_x_end |};
     adj_src := {| y_start := adj_src_y_start; y_end := adj_src_y_end;
                   x_start := adj_src_x_start; x_end := adj_src_x_end |} |}.

(** The chained comparison [0 <= a < b <= n]. *)
Definition chain (a b n : Z) : bool := (0 <=? a) && (a <? b) && (b <=? n).

(** Lines 125-130, in the order of the source. *)
Definition coords_ok (g : PatchGeometry) : bool :=
  chain (y_start (mirror_src g)) (y_end (mirror_src g)) height
  && chain (x_start (mirror_src g)) (x_end (mirror_src g)) width
  && chain (y_start (adj_src g)) (y_end (adj_src g)) height
  && chain (x_start (adj_src g)) (x_end (adj_src g)) width
  && chain (y_start (wm g)) (y_end (wm g)) height
  && chain (x_start (wm g)) (x_end (wm g)) width.

(** Lines 94-131 as one function: [None] is the [return False] of line 95
    or of line 131, [Some g] the rectangles the rest of [patch_frame]
    works with. *)
Definition resolve : option PatchGeometry :=
  if too_small then None
  else if negb (coords_ok geometry) then None
  else Some geometry.
End Geometry.

(** ** Pixel arrays *)

(** One pixel: three 8-bit channels, which the code never looks into. *)
Definition Pixel : Type := (Byte.byte * Byte.byte * Byte.byte)%type.

(** A [height x width x 3] array: the rows from top to bottom. *)
Abbreviation Block := (list (list Pixel)).

(** [a.shape[0]] and [a.shape[1]].  Every block that the code measures has at
    least one row, so its width is the length of its first row. *)
Definition shape0 (a : Block) : Z := Z.of_nat (length a).
Definition shape1 (a : Block) : Z :=
  match a with
  | [] => 0
  | row :: _ => Z.of_nat (length row)
  end.

(** What [cv2.imread] can return: every row as wide as the first, at least
    one row and one column. *)
Definition is_raster (a : Block) : bool :=
  (0 <? shape0 a) && (0 <? shape1 a)
  && forallb (fun row => Z.of_nat (length row) =? shape1 a) a.

Section Slices.
Context {A : Type}.

(** A slice bound on a sequence of length [len], as Python resolves it: a
    negative bound counts from the end, and the result is clipped to
    [0, len]. *)
Definition slice_index (len : nat) (i : Z) : nat :=
  if i <? 0 then Z.to_nat (Z.max 0 (i + Z.of_nat len))
  else Z.to_nat (Z.min i (Z.of_nat len)).

(** The positions [start, stop) that [l[a:b]] selects; [stop] is never
    before [start]. *)
Definition slice_bounds (len : nat) (a b : Z) : nat * nat :=
  let start := slice_index len a in
  (start, Nat.max start (slice_index len b)).

(** [l[a:b]]. *)
Definition py_slice (l : list A) (a b : Z) : list A :=
  let '(start, stop) := slice_bounds (length l) a b in
  take (stop - start) (drop start l).

(** [l[a:b] = mid], for a [mid] of the length of the slice. *)
Definition splice (start stop : nat) (mid l : list A) : list A :=
  take start l ++ mid ++ drop stop l.

(** numpy broadcasts a value along an axis: an axis of the wanted length
    is taken as it is, an axis of length one is repeated, and anything
    else does not fit. *)
Definition broadcast_to (n : nat) (l : list A) : option (list A) :=
  if decide (length l = n) then Some l
  else match l with
       | [x] => Some (replicate n x)
       | _ => None
       end.
End Slices.

Arguments splice : simpl never.

(** [frame[y0:y1, x0:x1]]: a slice of the rows, then the same slice of the
    columns in each of them. *)
Definition slice2 (frame : Block) (y0 y1 x0 x1 : Z) : Block :=
  (fun row => py_slice row x0 x1) <$> py_slice frame y0 y1.

(** The block of a rectangle. *)
Definition block_at (frame : Block) (r : Rect) : Block :=
  slice2 frame (y_start r) (y_end r) (x_start r) (x_end r).

(** [cv2.flip(a, 0)]: a new array with the rows in reverse order.  OpenCV
    refuses an empty array. *)
Definition cv2_flip0 (a : Block) : result Block :=
  if (shape0 a =? 0) || (shape1 a =? 0) then Raise CvError
  else Ret (reverse a).

(** [cv2.vconcat([a, b])]: a new array, [a] above [b]; the two must have the
    same number of columns. *)
Definition cv2_vconcat (a b : Block) : result Block :=
  if shape1 a =? shape1 b then Ret (a ++ b) else Raise CvError.

(** The rows [ys, ye) of [frame] with their columns [xs, xe) replaced by the
    rows of [p]; everything else is kept. *)
Definition write_block (ys ye xs xe : nat) (p frame : Block) : Block :=
  splice ys ye (zip_with (splice xs xe) p (take (ye - ys) (drop ys frame))) frame.

(** [frame[y0:y1, x0:x1] = patch].  The value is broadcast to the shape of
    the slice; when it does not fit numpy raises [ValueError] and the frame
    is as before. *)
Definition set_slice2 (frame : Block) (y0 y1 x0 x1 : Z) (patch : Block)
  : result Block :=
  let '(ys, ye) := slice_bounds (length frame) y0 y1 in
  let '(xs, xe) := slice_bounds (Z.to_nat (shape1 frame)) x0 x1 in
  match mapM (broadcast_to (xe - xs)) patch ≫= broadcast_to (ye - ys) with
  | None => Raise ValueError
  | Some p => Ret (write_block ys ye xs xe p frame)
  end.

(** The pixel at row [i], column [j]. *)
Definition pixel_at (frame : Block) (i j : nat) : option Pixel :=
  frame !! i ≫= fun row => row !! j.

(** ** The patch on a decoded frame (lines 93-158 of [patch_frame]) *)

(** State passing over the array that [cv2.imread] returned: the result is
    what [patch_frame] returns or raises at that point, paired with the array
    as the code leaves it.  [Ret true] stands for reaching line 159. *)
Definition patch_array (c : PatchConfig) (frame : Block) : result bool * Block :=
  let height := shape0 frame in
  let width := shape1 frame in
  match resolve c height width with
  | None => (Ret false, frame)
  | Some g =>
      let mirrored_content := block_at frame (mirror_src g) in
      match cv2_flip0 mirrored_content with
      | Raise e => (Raise e, frame)
      | Ret mirrored_content_flipped =>
          if negb (shape0 mirrored_content_flipped =? mirror_height c)
          then (Ret false, frame)
          else
            let adjacent_content := block_at frame (adj_src g) in
            if negb (shape0 adjacent_content =? adjacent_patch_height c)
            then (Ret false, frame)
            else if negb (shape1 mirrored_content_flipped =? patch_width c)
                    || negb (shape1 adjacent_content =? patch_width c)
            then (Ret false, frame)
            else
              match cv2_vconcat mirrored_content_flipped adjacent_content with
              | Raise _ => (Ret false, frame)
              | Ret patch =>
                  if negb (shape0 patch =? patch_height c)
                     || negb (shape1 patch =? patch_width c)
                  then (Ret false, frame)
                  else
                    match set_slice2 frame (y_start (wm g)) (y_end (wm g))
                            (x_start (wm g)) (x_end (wm g)) patch with
                    | Raise e => (Raise e, frame)
                    | Ret frame' => (Ret true, frame')
                    end
              end
      end
  end.

(** ** Strings and paths *)

(** [s.endswith(suffix)]. *)
Fixpoint endswith (s suffix : string) : bool :=
  String.eqb s suffix
  || match s with
     | EmptyString => false
     | String _ s' => endswith s' suffix
     end.

(** [posixpath.join(a, b)]: an absolute [b] replaces [a]; otherwise the two
    are joined by one separator, which is left out when [a] is empty or
    already ends with it. *)
Definition os_path_join (a b : string) : string :=
  if String.prefix "/" b then b
  else if String.eqb a "" || endswith a "/" then a +:+ b
  else a +:+ "/" +:+ b.

(** [sep in s], for a one-character [sep]. *)
Fixpoint str_contains (sep : Ascii.ascii) (s : string) : bool :=
  match s with
  | EmptyString => false
  | String ch s' => Ascii.eqb ch sep || str_contains sep s'
  end.

(** [s.split(sep)], for a one-character [sep]: the pieces between the
    separators, empty pieces included. *)
Fixpoint str_split (sep : Ascii.ascii) (s : string) : list string :=
  match s with
  | EmptyString => [EmptyString]
  | String ch s' =>
      if Ascii.eqb ch sep then EmptyString :: str_split sep s'
      else match str_split sep s' with
           | piece :: pieces => String ch piece :: pieces
           | [] => [String ch EmptyString]
           end
  end.

(** [sorted(names)]: strings compare by code point, which for UTF-8 text is
    the order of the bytes. *)
Definition sorted (names : list string) : list string :=
  merge_sort String.le names.

(** ** The frame directory *)

(** A file either decodes to pixels or is something [cv2.imread] gives up
    on. *)
Inductive File : Type :=
| Image (pixels : Block)
| Unreadable.

Abbreviation Disk := (gmap string File).

(** [cv2.imread(path)]: [None] for a missing file and for one that does not
    decode to an image. *)
Definition cv2_imread (disk : Disk) (path : string) : option Block :=
  match disk !! path with
  | Some (Image a) => if is_raster a then Some a else None
  | _ => None
  end.

(** [cv2.imwrite(path, frame)] on a writable directory: PNG is lossless, so
    the file decodes to [frame] again. *)
Definition cv2_imwrite (path : string) (frame : Block) (disk : Disk) : Disk :=
  <[path := Image frame]> disk.

(** ** [patch_frame] *)

(** Lines 89-160.  The result is paired with the directory as the call
    leaves it. *)
Definition patch_frame (fname input_dir : string) (c : PatchConfig)
    (disk : Disk) : result bool * Disk :=
  let path := os_path_join input_dir fname in
  match cv2_imread disk path with
  | None => (Ret false, disk)
  | Some frame =>
      match patch_array c frame with
      | (Ret true, frame') => (Ret true, cv2_imwrite path frame' disk)
      | (r, _) => (r, disk)
      end
  end.

Definition _global_patch_frame_wrapper (fname input_dir : string)
    (c : PatchConfig) (disk : Disk) : result bool * Disk :=
  patch_frame fname input_dir c disk.

(** ** [patch_frames] *)

(** What [patch_frames] prints: the warning of line 173, or the tally of
    line 202. *)
Inductive Report : Type :=
| NoFramesFound
| Patched (successful_patches total : nat).

(** The map of a worker pool that is up: the results in the order of
    [files].  Every call works on a file of its own, so running the calls one
    after the other gives the directory that the pool leaves.  An exception
    in a worker ends the map. *)
Fixpoint pool_map (worker : string → Disk → result bool * Disk)
    (files : list string) (disk : Disk) : result (list bool) * Disk :=
  match files with
  | [] => (Ret [], disk)
  | f :: files' =>
      match worker f disk with
      | (Raise e, disk') => (Raise e, disk')
      | (Ret r, disk') =>
          match pool_map worker files' disk' with
          | (Raise e, disk'') => (Raise e, disk'')
          | (Ret rs, disk'') => (Ret (r :: rs), disk'')
          end
      end
  end.

(** [process_map(worker, files, max_workers=max_workers)], for an [int]
    worker count as [-j] gives it: the pool is created first, and
    [ProcessPoolExecutor] raises [ValueError] for a count that is not
    positive, before any call of the worker. *)
Definition process_map (worker : string → Disk → result bool * Disk)
    (files : list string) (max_workers : Z) (disk : Disk)
  : result (list bool) * Disk :=
  if max_workers <=? 0 then (Raise ValueError, disk)
  else pool_map worker files disk.

(** The frame files of line 170, from the names [os.listdir(tmpdir)] lists. *)
Definition frame_files_of (entries : list string) : list string :=
  sorted (filter (fun f => endswith f ".png" = true) entries).

(** [sum(1 for r in results if r is True)]. *)
Definition count_true (results : list bool) : nat :=
  length (filter (fun r => r = true) results).

(** Lines 169-202; [entries] is [os.listdir(tmpdir)]. *)
Definition patch_frames (entries : list string) (tmpdir : string)
    (c : PatchConfig) (n_jobs : Z) (disk : Disk) : result Report * Disk :=
  let frame_files := frame_files_of entries in
  let total := length frame_files in
  if (total =? 0)%nat then (Ret NoFramesFound, disk)
  else
    let worker_fn := fun fname => _global_patch_frame_wrapper fname tmpdir c in
    match process_map worker_fn frame_files n_jobs disk with
    | (Raise e, disk') => (Raise e, disk')
    | (Ret results, disk') => (Ret (Patched (count_true results) total), disk')
    end.

(** ** [get_fps] *)

(** The number a decimal numeral stands for. *)
Fixpoint digits_value (acc : Z) (s : string) : option Z :=
  match s with
  | EmptyString => Some acc
  | String ch s' =>
      match Ascii.is_nat ch with
      | Some d => digits_value (10 * acc + Z.of_nat d) s'
      | None => None
      end
  end.

Definition decimal_value (s : string) : option Z :=
  match s with
  | EmptyString => None
  | _ => digits_value 0 s
  end.

(** The double nearest to an integer (ties to even). *)
Definition float_of_Z (n : Z) : float :=
  SF2Prim (binary_normalize prec emax n 0 false).

(** [a / b] on floats: [ZeroDivisionError] when [b == 0.0]. *)
Definition py_truediv (a b : float) : result float :=
  if PrimFloat.eqb b 0%float then Raise ZeroDivisionError
  else Ret (PrimFloat.div a b).

(** The truth value of a float: false exactly for a zero. *)
Definition py_bool (x : float) : bool := negb (PrimFloat.eqb x 0%float).

(** The value of a finite float as a rational. *)
Definition float_to_Q (x : float) : option Q :=
  match Prim2SF x with
  | S754_zero _ => Some 0%Q
  | S754_finite s m e =>
      let mag := (inject_Z (Z.pos m) * Qpower 2 e)%Q in
      Some (if s then Qopp mag else mag)
  | _ => None
  end.

Section FrameRate.
(** Python's [float] on a string; [None] is its [ValueError].  The parser
    is a builtin: the theorems only ask that it reads decimal numerals. *)
Variable py_float : string → option float.

(** Lines 35-39, from [fps_str], the stripped output of the probe. *)
Definition get_fps (fps_str : string) : result float :=
  if str_contains "/"%char fps_str then
    match mapM py_float (str_split "/"%char fps_str) with
    | Some [num; denom] =>
        if py_bool denom then py_truediv num denom else Ret num
    | _ => Raise ValueError
    end
  else
    match py_float fps_str with
    | Some x => Ret x
    | None => Raise ValueError
    end.
End FrameRate.

(** [float] reads a decimal numeral as the nearest double. *)
Definition reads_decimals (py_float : string → option float) : Prop :=
  ∀ s n, decimal_value s = Some n → py_float s = Some (float_of_Z n).

(** A parser for the numerals alone. *)
Definition float_of_numeral (s : string) : option float :=
  float_of_Z <$> decimal_value s.

(** ** The geometry in the words of the specification *)

(** A rectangle that lies in the frame and is not empty:
    [0 <= top < bottom <= frameHeight] and [0 <= left < right <= frameWidth]. *)
Definition inside (height width : Z) (r : Rect) : Prop :=
  (0 ≤ y_start r ∧ y_start r < y_end r ∧ y_end r ≤ height)
  ∧ (0 ≤ x_start r ∧ x_start r < x_end r ∧ x_end r ≤ width).

(** A coordinate of the rectangle is outside [0, frameHeight] x [0, frameWidth]. *)
Definition outside_frame (height width : Z) (r : Rect) : Prop :=
  ¬ (0 ≤ y_start r ≤ height) ∨ ¬ (0 ≤ y_end r ≤ height)
  ∨ ¬ (0 ≤ x_start r ≤ width) ∨ ¬ (0 ≤ x_end r ≤ width).

(** [top >= bottom] or [left >= right]. *)
Definition degenerate (r : Rect) : Prop :=
  y_end r ≤ y_start r ∨ x_end r ≤ x_start r.

(** The three rectangles in the formulas of the specification:
    [target.bottom = frameHeight - patchY], [target.top = target.bottom -
    patchHeight], [target.left = patchX], [target.right = patchX +
    patchWidth]. *)
Definition spec_target (c : PatchConfig) (frameHeight : Z) : Rect :=
  let target_bottom := frameHeight - patch_y c in
  {| y_start := target_bottom - patch_height c; y_end := target_bottom;
     x_start := patch_x c; x_end := patch_x c + patch_width c |}.

(** [mirrorSource.bottom = target.top - mirrorOffset], [mirrorSource.top =
    mirrorSource.bottom - mirrorHeight], same left and right as the
    target. *)
Definition spec_mirror_source (c : PatchConfig) (frameHeight : Z) : Rect :=
  let target := spec_target c frameHeight in
  let mirror_bottom := y_start target - mirror_offset c in
  {| y_start := mirror_bottom - mirror_height c; y_end := mirror_bottom;
     x_start := x_start target; x_end := x_end target |}.

(** [adjacentSource.bottom = target.bottom], [adjacentSource.top =
    target.bottom - (patchHeight - mirrorHeight)], [adjacentSource.left =
    target.right], [adjacentSource.right = target.right + patchWidth]. *)
Definition spec_adjacent_source (c : PatchConfig) (frameHeight : Z) : Rect :=
  let target := spec_target c frameHeight in
  {| y_start := y_end target - (patch_height c - mirror_height c);
     y_end := y_end target;
     x_start := x_end target; x_end := x_end target + patch_width c |}.

(** The mirror source with its top edge, not its bottom edge,
    [mirrorOffset] rows above the target: [mirrorSource.top = target.top -
    mirrorOffset], [mirrorSource.bottom = mirrorSource.top +
    mirrorHeight]. *)
Definition amended_mirror_source (c : PatchConfig) (frameHeight : Z) : Rect :=
  let target := spec_target c frameHeight in
  let mirror_top := y_start target - mirror_offset c in
  {| y_start := mirror_top; y_end := mirror_top + mirror_height c;
     x_start := x_start target; x_end := x_end target |}.

(** The rejection condition of the Geometry Resolver in the words of the
    specification, over three given rectangles. *)
Definition rejects_over (rects : list Rect) (c : PatchConfig)
    (frameHeight frameWidth : Z) : Prop :=
  frameHeight < patch_height c
  ∨ frameWidth < patch_width c + patch_x c
  ∨ ∃ r, r ∈ rects ∧ (outside_frame frameHeight frameWidth r ∨ degenerate r).

(** The condition over the rectangles of the specification. *)
Definition spec_rejects (c : PatchConfig) (frameHeight frameWidth : Z) : Prop :=
  rejects_over [spec_target c frameHeight; spec_mirror_source c frameHeight;
                spec_adjacent_source c frameHeight] c frameHeight frameWidth.

(** The condition with the mirror source amended. *)
Definition amended_rejects (c : PatchConfig) (frameHeight frameWidth : Z) : Prop :=
  rejects_over [spec_target c frameHeight; amended_mirror_source c frameHeight;
                spec_adjacent_source c frameHeight] c frameHeight frameWidth.

(** The configurations and frame sizes that [resolve] accepts. *)
Definition fits (c : PatchConfig) (height width : Z) : Prop :=
  0 ≤ patch_x c ∧ 0 ≤ patch_y c ∧ 0 < patch_width c
  ∧ 0 < mirror_height c ∧ mirror_height c < patch_height c
  ∧ mirror_height c - patch_height c - patch_y c ≤ mirror_offset c
  ∧ patch_y c + patch_height c + Z.max 0 (mirror_offset c) ≤ height
  ∧ patch_x c + 2 * patch_width c ≤ width.

(** ** Shapes *)

(** A block of [h] rows that are all [w] wide. *)
Definition has_shape (h w : nat) (a : Block) : Prop :=
  length a = h ∧ Forall (fun row => length row = w) a.

(** The rows and columns of a rectangle, as positions. *)
Definition rows_of (r : Rect) : nat * nat := (Z.to_nat (y_start r), Z.to_nat (y_end r)).
Definition cols_of (r : Rect) : nat * nat := (Z.to_nat (x_start r), Z.to_nat (x_end r)).

(** The value of [patch] at line 151: the mirror source upside down, above
    the adjacent source. *)
Definition patch_of (frame : Block) (g : PatchGeometry) : Block :=
  reverse (block_at frame (mirror_src g)) ++ block_at frame (adj_src g).

(** The frame after line 158. *)
Definition patched (frame : Block) (g : PatchGeometry) : Block :=
  write_block (fst (rows_of (wm g))) (snd (rows_of (wm g)))
    (fst (cols_of (wm g))) (snd (cols_of (wm g))) (patch_of frame g) frame.

(** Position [(i, j)] lies in the rectangle. *)
Definition in_rect (r : Rect) (i j : nat) : Prop :=
  y_start r ≤ Z.of_nat i ∧ Z.of_nat i < y_end r
  ∧ x_start r ≤ Z.of_nat j ∧ Z.of_nat j < x_end r.

(** ** Small frames to run the code on *)

(** A grey pixel. *)
Definition grey (v : Byte.byte) : Pixel := (v, v, v).

(** Four rows of two pixels, all different. *)
Definition frame_4x2 : Block :=
  [[grey x01; grey x02]; [grey x03; grey x04];
   [grey x05; grey x06]; [grey x07; grey x08]].

(** A one-column patch of two rows, mirror source right above the target. *)
Definition tiny : PatchConfig :=
  {| patch_width := 1; patch_height := 2; patch_x := 0; patch_y := 0;
     mirror_height := 1; mirror_offset := 1 |}.

(** A one-column patch of three rows whose mirror source is the top two rows
    of the target itself ([--mirror-offset 0]). *)
Definition overlapping : PatchConfig :=
  {| patch_width := 1; patch_height := 3; patch_x := 0; patch_y := 0;
     mirror_height := 2; mirror_offset := 0 |}.

(** [frame_4x2] after the [overlapping] patch. *)
Definition frame_4x2_overlapped : Block :=
  [[grey x01; grey x02]; [grey x05; grey x04];
   [grey x03; grey x06]; [grey x08; grey x08]].

(** A frame directory with one frame file. *)
Definition one_frame_dir (file : File) : Disk :=
  {[ "frames/frame_00001.png" := file ]}.

(** The batch scenario: ten frame files, the third and the seventh
    unreadable, and a file that is not a frame. *)
Definition ten_entries : list string :=
  ["frame_00003.png"; "frame_00001.png"; "frame_00002.png"; "notes.txt";
   "frame_00010.png"; "frame_00004.png"; "frame_00005.png";
   "frame_00006.png"; "frame_00007.png"; "frame_00008.png";
   "frame_00009.png"].

Definition ten_frames_dir : Disk :=
  list_to_map
    [("frames/frame_00001.png", Image frame_4x2);
     ("frames/frame_00002.png", Image frame_4x2);
     ("frames/frame_00003.png", Unreadable);
     ("frames/frame_00004.png", Image frame_4x2);
     ("frames/frame_00005.png", Image frame_4x2);
     ("frames/frame_00006.png", Image frame_4x2);
     ("frames/frame_00007.png", Unreadable);
     ("frames/frame_00008.png", Image frame_4x2);
     ("frames/frame_00009.png", Image frame_4x2);
     ("frames/frame_00010.png", Image frame_4x2);
     ("frames/notes.txt", Unreadable)].

(** ** Moving rectangles, counting and joining *)

(** A rectangle moved [d] rows down. *)
Definition shift_rect (d : Z) (r : Rect) : Rect :=
  {| y_start := y_start r + d; y_end := y_end r + d;
     x_start := x_start r; x_end := x_end r |}.

Definition shift_geometry (d : Z) (g : PatchGeometry) : PatchGeometry :=
  {| wm := shift_rect d (wm g);
     mirror_src := shift_rect d (mirror_src g);
     adj_src := shift_rect d (adj_src g) |}.

(** [s.count(sep)], for a one-character [sep]. *)
Fixpoint str_count (sep : Ascii.ascii) (s : string) : nat :=
  match s with
  | EmptyString => 0%nat
  | String ch s' =>
      ((if Ascii.eqb ch sep then 1 else 0) + str_count sep s')%nat
  end.

(** [sep.join(pieces)], for a one-character [sep]. *)
Fixpoint str_join (sep : Ascii.ascii) (pieces : list string) : string :=
  match pieces with
  | [] => EmptyString
  | [piece] => piece
  | piece :: pieces' => piece +:+ String sep (str_join sep pieces')
  end.

(** * Properties *)

(** ** Geometry *)

Lemma chain_spec a b n : chain a b n = true ↔ 0 ≤ a ∧ a < b ∧ b ≤ n.
Proof. unfold chain. rewrite !andb_true_iff. lia. Qed.

Lemma coords_ok_spec height width g :
  coords_ok height width g = true ↔
  inside height width (mirror_src g) ∧ inside height width (adj_src g)
  ∧ inside height width (wm g).
Proof.
  unfold coords_ok, inside. rewrite !andb_true_iff, !chain_spec. tauto.
Qed.

Lemma too_small_spec c height width :
  too_small c height width = true ↔
  height < patch_height c ∨ width < patch_width c + patch_x c.
Proof. unfold too_small. rewrite orb_true_iff. lia. Qed.

(** The size test of line 94 is implied by the chains of lines 125-130. *)
Lemma coords_ok_not_too_small c height width :
  coords_ok height width (geometry c height) = true →
  too_small c height width = false.
Proof.
  rewrite coords_ok_spec. unfold inside. simpl. intros H.
  apply not_true_iff_false. rewrite too_small_spec. lia.
Qed.

Lemma resolve_Some c height width g :
  resolve c height width = Some g ↔
  g = geometry c height ∧ coords_ok height width g = true.
Proof.
  unfold resolve. split.
  - destruct (too_small c height width); [done|].
    destruct (coords_ok height width (geometry c height)) eqn:E; simpl; [|done].
    intros [= <-]. done.
  - intros [-> H]. rewrite (coords_ok_not_too_small _ _ _ H), H. done.
Qed.

Lemma resolve_None c height width :
  resolve c height width = None ↔
  coords_ok height width (geometry c height) = false.
Proof.
  unfold resolve. split.
  - destruct (too_small c height width) eqn:T.
    + intros _. apply not_true_iff_false. intros H.
      apply coords_ok_not_too_small in H. congruence.
    + destruct (coords_ok height width (geometry c height)); simpl; done.
  - intros ->. simpl. by destruct (too_small c height width).
Qed.

Lemma resolve_inside c height width g :
  resolve c height width = Some g →
  inside height width (mirror_src g) ∧ inside height width (adj_src g)
  ∧ inside height width (wm g).
Proof. rewrite resolve_Some, coords_ok_spec. tauto. Qed.

Lemma fits_iff c height width :
  fits c height width ↔ coords_ok height width (geometry c height) = true.
Proof.
  rewrite coords_ok_spec. unfold fits, inside, adjacent_patch_height. simpl.
  unfold adjacent_patch_height. lia.
Qed.

(** [resolve] accepts exactly the inputs that fit. *)
Lemma resolve_accepts_iff c height width :
  is_Some (resolve c height width) ↔ fits c height width.
Proof.
  rewrite fits_iff. split.
  - intros [g Hg]. apply resolve_Some in Hg as [-> ?]. done.
  - intros H. exists (geometry c height). by apply resolve_Some.
Qed.

(** C1 (amended).  For every configuration and frame size that [resolve]
    accepts, the top edge of the mirror source sits [mirror_offset] rows above
    the top edge of the target, its bottom edge [mirror_height] rows below its
    own top edge, and its left and right edges are those of the target. *)
Theorem mirror_source_geometry c height width g :
  resolve c height width = Some g →
  y_start (mirror_src g) = y_start (wm g) - mirror_offset c
  ∧ y_end (mirror_src g) = y_start (mirror_src g) + mirror_height c
  ∧ x_start (mirror_src g) = x_start (wm g)
  ∧ x_end (mirror_src g) = x_end (wm g).
Proof.
  intros [-> _]%resolve_Some. simpl. lia.
Qed.

Lemma mirror_source_geometry_witness :
  ∃ g, resolve bushnell 720 1280 = Some g
       ∧ y_start (mirror_src g) = 554 ∧ y_end (mirror_src g) = 608
       ∧ x_start (mirror_src g) = 0 ∧ x_end (mirror_src g) = 110.
Proof.
  exists (geometry bushnell 720).
  assert (H : resolve bushnell 720 1280 = Some (geometry bushnell 720))
    by reflexivity.
  split; [exact H|].
  destruct (mirror_source_geometry bushnell 720 1280 _ H) as (H1 & H2 & H3 & H4).
  rewrite H2, H1, H3, H4. vm_compute. repeat split.
Defined.

(** C1 as the specification words it fails on the defaults with a 720 x 1280
    frame: the bottom edge of the mirror source is at row 608, the row
    [mirror_offset] above the target is row 554. *)
Lemma mirror_source_bottom_counterexample :
  ¬ (∀ c height width g,
       resolve c height width = Some g →
       y_end (mirror_src g) = y_start (wm g) - mirror_offset c
       ∧ y_start (mirror_src g) = y_end (mirror_src g) - mirror_height c
       ∧ x_start (mirror_src g) = x_start (wm g)
       ∧ x_end (mirror_src g) = x_end (wm g)).
Proof.
  intros H.
  destruct (H bushnell 720 1280 (geometry bushnell 720) eq_refl) as [H1 _].
  vm_compute in H1. discriminate H1.
Qed.

Lemma not_inside_iff height width r :
  ¬ inside height width r ↔ outside_frame height width r ∨ degenerate r.
Proof. unfold inside, outside_frame, degenerate. lia. Qed.

Lemma inside_dec height width r :
  inside height width r ∨ ¬ inside height width r.
Proof. unfold inside. lia. Qed.

Lemma too_small_not_inside c height width :
  height < patch_height c ∨ width < patch_width c + patch_x c →
  coords_ok height width (geometry c height) = false.
Proof.
  intros H. apply not_true_iff_false. intros Hok.
  apply coords_ok_not_too_small in Hok.
  apply too_small_spec in H. congruence.
Qed.

(** [resolve] rejects exactly when one of the rectangles it computes is not
    inside the frame. *)
Lemma resolve_None_rects c height width :
  resolve c height width = None ↔
  rejects_over [wm (geometry c height); mirror_src (geometry c height);
                adj_src (geometry c height)] c height width.
Proof.
  rewrite resolve_None. unfold rejects_over. split.
  - intros Hno.
    assert (Hn : ¬ (inside height width (mirror_src (geometry c height))
                    ∧ inside height width (adj_src (geometry c height))
                    ∧ inside height width (wm (geometry c height)))).
    { rewrite <- coords_ok_spec. congruence. }
    right; right.
    destruct (inside_dec height width (mirror_src (geometry c height))) as [Hm|Hm].
    + destruct (inside_dec height width (adj_src (geometry c height))) as [Ha|Ha].
      * exists (wm (geometry c height)). split; [set_solver|].
        apply not_inside_iff. tauto.
      * exists (adj_src (geometry c height)). split; [set_solver|].
        by apply not_inside_iff.
    + exists (mirror_src (geometry c height)). split; [set_solver|].
      by apply not_inside_iff.
  - intros [H|[H|(r & Hr & Hbad)]].
    + apply too_small_not_inside. auto.
    + apply too_small_not_inside. auto.
    + apply not_inside_iff in Hbad.
      apply not_true_iff_false. rewrite coords_ok_spec. intros (Hm & Ha & Hw).
      apply Hbad.
      repeat (apply elem_of_cons in Hr as [->|Hr]; [assumption|]).
      by apply elem_of_nil in Hr.
Qed.

(** The rectangles of lines 99-122 are the rectangles of the specification,
    but for the mirror source. *)
Lemma geometry_rects c height :
  wm (geometry c height) = spec_target c height
  ∧ mirror_src (geometry c height) = amended_mirror_source c height
  ∧ adj_src (geometry c height) = spec_adjacent_source c height.
Proof.
  unfold geometry, spec_target, amended_mirror_source, spec_adjacent_source,
    adjacent_patch_height. simpl.
  split; [|split]; f_equal; lia.
Qed.

(** C3 (amended).  [resolve] is a total function, so it returns and never
    raises; it rejects exactly when the frame is lower than the patch, or
    narrower than the patch and its offset, or one of the three rectangles
    has a coordinate outside the frame or is degenerate: the target and the
    adjacent source of the specification, and the mirror source whose top
    edge is [mirror_offset] rows above the top of the target and whose
    bottom edge is [mirror_height] rows below its own top. *)
Theorem resolve_rejects_exactly c height width :
  resolve c height width = None ↔ amended_rejects c height width.
Proof.
  rewrite resolve_None_rects. unfold amended_rejects.
  destruct (geometry_rects c height) as (-> & -> & ->). done.
Qed.

Lemma resolve_rejects_exactly_witness :
  resolve bushnell 150 200 = None
  ∧ ¬ amended_rejects bushnell 166 220.
Proof.
  split.
  - apply (proj2 (resolve_rejects_exactly bushnell 150 200)).
    right; right. exists (amended_mirror_source bushnell 150).
    split; [set_solver|]. left. left. simpl. lia.
  - intros Hrej.
    apply (proj2 (resolve_rejects_exactly bushnell 166 220)) in Hrej.
    discriminate Hrej.
Defined.

(** C3 as the specification words it, over its own rectangles, fails on the
    defaults with a 166 x 220 frame: the mirror source of the specification
    would be rows -54 to 0, so the condition holds, and [resolve] accepts
    the frame. *)
Lemma spec_rejects_accepted_frame :
  spec_rejects bushnell 166 220
  ∧ resolve bushnell 166 220 = Some (geometry bushnell 166)
  ∧ ¬ (resolve bushnell 166 220 = None ↔ spec_rejects bushnell 166 220).
Proof.
  assert (Hspec : spec_rejects bushnell 166 220).
  { right; right. exists (spec_mirror_source bushnell 166).
    split; [set_solver|]. left. left. simpl. lia. }
  split; [exact Hspec|]. split; [reflexivity|].
  intros [_ Hback]. specialize (Hback Hspec). discriminate Hback.
Qed.

(** C4 (amended).  When the configuration and the frame fit, [resolve]
    returns three rectangles: the heights of the two sources add up to the
    height of the target, which is [patch_height], and all three are
    [patch_width] wide. *)
Theorem resolve_heights_widths c height width :
  fits c height width →
  ∃ g, resolve c height width = Some g
       ∧ rect_height (mirror_src g) + rect_height (adj_src g) = rect_height (wm g)
       ∧ rect_height (wm g) = patch_height c
       ∧ rect_width (wm g) = patch_width c
       ∧ rect_width (mirror_src g) = patch_width c
       ∧ rect_width (adj_src g) = patch_width c.
Proof.
  intros Hfit. exists (geometry c height). split.
  - apply resolve_Some. split; [done|]. by apply fits_iff.
  - unfold rect_height, rect_width, adjacent_patch_height. simpl.
    unfold adjacent_patch_height. lia.
Qed.

Lemma resolve_heights_widths_witness :
  fits bushnell 720 1280
  ∧ ∃ g, resolve bushnell 720 1280 = Some g
         ∧ rect_height (mirror_src g) + rect_height (adj_src g) = rect_height (wm g)
         ∧ rect_height (wm g) = 110
         ∧ rect_width (wm g) = 110
         ∧ rect_width (mirror_src g) = 110
         ∧ rect_width (adj_src g) = 110.
Proof.
  assert (Hfit : fits bushnell 720 1280) by (unfold fits; simpl; lia).
  split; [exact Hfit|].
  exact (resolve_heights_widths bushnell 720 1280 Hfit).
Defined.

(** C4 as the specification words it fails on the defaults with a 150 x 200
    frame: the frame is higher than the patch and wider than the patch and
    its offset, and [resolve] rejects it. *)
Lemma resolve_rejects_large_enough_frame :
  patch_height bushnell ≤ 150
  ∧ patch_width bushnell + patch_x bushnell ≤ 200
  ∧ resolve bushnell 150 200 = None.
Proof. split; [|split]; [simpl; lia | simpl; lia | reflexivity]. Qed.

(** C5.  For every configuration and frame size that [resolve] accepts, the
    target ends [patch_y] rows above the bottom of the frame, is
    [patch_height] high, starts at column [patch_x] and is [patch_width]
    wide; the adjacent source ends on the same row, is
    [patch_height - mirror_height] high, starts at the right edge of the
    target and is [patch_width] wide. *)
Theorem target_and_adjacent_geometry c height width g :
  resolve c height width = Some g →
  (y_end (wm g) = height - patch_y c
   ∧ y_start (wm g) = y_end (wm g) - patch_height c
   ∧ x_start (wm g) = patch_x c
   ∧ x_end (wm g) = patch_x c + patch_width c)
  ∧ (y_end (adj_src g) = y_end (wm g)
     ∧ y_start (adj_src g) = y_end (wm g) - (patch_height c - mirror_height c)
     ∧ x_start (adj_src g) = x_end (wm g)
     ∧ x_end (adj_src g) = x_end (wm g) + patch_width c).
Proof.
  intros [-> _]%resolve_Some. unfold adjacent_patch_height. simpl.
  unfold adjacent_patch_height. lia.
Qed.

Lemma target_and_adjacent_geometry_witness :
  ∃ g, resolve bushnell 720 1280 = Some g
       ∧ wm g = {| y_start := 610; y_end := 720; x_start := 0; x_end := 110 |}
       ∧ y_end (adj_src g) = y_end (wm g)
       ∧ x_start (adj_src g) = x_end (wm g).
Proof.
  exists (geometry bushnell 720).
  assert (H : resolve bushnell 720 1280 = Some (geometry bushnell 720))
    by reflexivity.
  destruct (target_and_adjacent_geometry bushnell 720 1280 _ H)
    as [_ (H1 & _ & H3 & _)].
  split; [exact H|]. split; [reflexivity|]. split; [exact H1|exact H3].
Defined.

(** ** Slices and splices *)

Section SliceFacts.
Context {A : Type}.
Implicit Types l mid : list A.

Lemma slice_index_inside len (i : Z) :
  0 ≤ i → i ≤ Z.of_nat len → slice_index len i = Z.to_nat i.
Proof.
  intros H0 H1. unfold slice_index.
  destruct (Z.ltb_spec i 0); [lia|]. f_equal. lia.
Qed.

Lemma slice_bounds_inside len (a b : Z) :
  0 ≤ a → a ≤ b → b ≤ Z.of_nat len →
  slice_bounds len a b = (Z.to_nat a, Z.to_nat b).
Proof.
  intros Ha Hab Hb. unfold slice_bounds.
  rewrite !slice_index_inside by lia. f_equal. lia.
Qed.

Lemma py_slice_inside l (a b : Z) :
  0 ≤ a → a ≤ b → b ≤ Z.of_nat (length l) →
  py_slice l a b = take (Z.to_nat b - Z.to_nat a) (drop (Z.to_nat a) l).
Proof.
  intros. unfold py_slice. by rewrite slice_bounds_inside.
Qed.

Lemma length_splice start stop mid l :
  (start ≤ stop)%nat → (stop ≤ length l)%nat →
  length mid = (stop - start)%nat →
  length (splice start stop mid l) = length l.
Proof.
  intros. unfold splice.
  rewrite !length_app, length_take, length_drop. lia.
Qed.

Lemma splice_lookup start stop mid l (i : nat) :
  (start ≤ stop)%nat → (stop ≤ length l)%nat →
  length mid = (stop - start)%nat →
  splice start stop mid l !! i =
    if decide (start ≤ i < stop)%nat then mid !! (i - start)%nat else l !! i.
Proof.
  intros Hse Hel Hmid. unfold splice.
  assert (Htake : length (take start l) = start) by (rewrite length_take; lia).
  case_decide as Hi.
  - rewrite lookup_app_r by lia. rewrite Htake.
    apply lookup_app_l. lia.
  - destruct (decide (i < start)%nat).
    + rewrite lookup_app_l by lia. by apply lookup_take_lt.
    + rewrite lookup_app_r by lia. rewrite lookup_app_r by lia.
      rewrite lookup_drop. f_equal. lia.
Qed.


Lemma broadcast_to_exact n l : length l = n → broadcast_to n l = Some l.
Proof. intros. unfold broadcast_to. by rewrite decide_True. Qed.
End SliceFacts.

(** ** Rasters and blocks *)

Lemma is_raster_spec a :
  is_raster a = true ↔
  0 < shape0 a ∧ 0 < shape1 a
  ∧ Forall (fun row => Z.of_nat (length row) = shape1 a) a.
Proof.
  unfold is_raster. rewrite !andb_true_iff, !Z.ltb_lt.
  rewrite forallb_forall, Forall_forall.
  split.
  - intros [[H0 H1] H2]. split; [done|]. split; [done|].
    intros row Hrow. apply Z.eqb_eq, H2. by apply list_elem_of_In.
  - intros (H0 & H1 & H2). split; [done|].
    intros row Hrow. apply Z.eqb_eq, H2. by apply list_elem_of_In.
Qed.

Lemma has_shape_shape0 h w a : has_shape h w a → shape0 a = Z.of_nat h.
Proof. intros [<- _]. done. Qed.

Lemma has_shape_shape1 h w a :
  has_shape h w a → (0 < h)%nat → shape1 a = Z.of_nat w.
Proof.
  intros [Hl Hrows] Hh. destruct a as [|row a]; simpl in *; [lia|].
  apply Forall_cons in Hrows as [-> _]. done.
Qed.

Lemma is_raster_has_shape a :
  is_raster a = true →
  has_shape (Z.to_nat (shape0 a)) (Z.to_nat (shape1 a)) a
  ∧ 0 < shape0 a ∧ 0 < shape1 a.
Proof.
  intros (H0 & H1 & Hrows)%is_raster_spec. split; [|done]. split.
  - unfold shape0. lia.
  - eapply Forall_impl; [exact Hrows|]. intros row Hrow. simpl in Hrow. lia.
Qed.

Lemma has_shape_reverse h w a : has_shape h w a → has_shape h w (reverse a).
Proof.
  intros [Hl Hrows]. split; [by rewrite length_reverse|by apply Forall_reverse].
Qed.

Lemma has_shape_app h1 h2 w a b :
  has_shape h1 w a → has_shape h2 w b → has_shape (h1 + h2) w (a ++ b).
Proof.
  intros [Ha Hra] [Hb Hrb]. split; [rewrite length_app; lia|].
  apply Forall_app. done.
Qed.


Section Blocks.
Variables (H W : nat) (frame : Block).
Hypothesis Hframe : has_shape H W frame.

(** The block of a rectangle that lies in the frame. *)
Lemma block_at_inside r :
  inside (Z.of_nat H) (Z.of_nat W) r →
  block_at frame r =
    (fun row => take (snd (cols_of r) - fst (cols_of r)) (drop (fst (cols_of r)) row))
      <$> take (snd (rows_of r) - fst (rows_of r)) (drop (fst (rows_of r)) frame).
Proof.
  intros [Hy Hx]. destruct Hframe as [Hlen Hrows].
  unfold block_at, slice2. rewrite py_slice_inside by lia.
  apply Forall_fmap_ext. apply Forall_take, Forall_drop.
  eapply Forall_impl; [exact Hrows|]. intros row Hrow. simpl in Hrow.
  rewrite py_slice_inside by lia. done.
Qed.

Lemma block_at_shape r :
  inside (Z.of_nat H) (Z.of_nat W) r →
  has_shape (Z.to_nat (rect_height r)) (Z.to_nat (rect_width r)) (block_at frame r).
Proof.
  intros Hin. rewrite (block_at_inside r Hin). destruct Hin as [Hy Hx].
  destruct Hframe as [Hlen Hrows]. unfold rect_height, rect_width. simpl. split.
  - rewrite length_fmap, length_take, length_drop. lia.
  - apply Forall_fmap. apply Forall_take, Forall_drop.
    eapply Forall_impl; [exact Hrows|]. intros row Hrow. simpl in *.
    rewrite length_take, length_drop. lia.
Qed.

Variables (ys ye xs xe : nat) (p : Block).
Hypothesis Hrows : (ys ≤ ye ≤ H)%nat.
Hypothesis Hcols : (xs ≤ xe ≤ W)%nat.
Hypothesis Hp : has_shape (ye - ys) (xe - xs) p.

Let mid := take (ye - ys) (drop ys frame).

Lemma length_mid : length mid = (ye - ys)%nat.
Proof.
  destruct Hframe as [Hlen _]. unfold mid.
  rewrite length_take, length_drop. lia.
Qed.

Lemma mid_rows : Forall (fun row => length row = W) mid.
Proof. destruct Hframe as [_ Hr]. by apply Forall_take, Forall_drop. Qed.

Lemma length_new_rows : length (zip_with (splice xs xe) p mid) = (ye - ys)%nat.
Proof.
  destruct Hp as [Hlp _]. rewrite length_zip_with, length_mid. lia.
Qed.

(** The frame keeps its shape. *)
Lemma write_block_shape : has_shape H W (write_block ys ye xs xe p frame).
Proof.
  destruct Hframe as [Hlen Hr]. destruct Hp as [Hlp Hrp].
  unfold write_block. fold mid. split.
  - rewrite length_splice; [done|lia|lia|apply length_new_rows].
  - unfold splice at 1. rewrite !Forall_app. split; [by apply Forall_take|].
    split; [|by apply Forall_drop].
    apply Forall_lookup. intros i row' Hi.
    apply lookup_zip_with_Some in Hi as (prow & row & -> & Hprow & Hrow).
    pose proof (Forall_lookup_1 _ _ _ _ Hrp Hprow) as Hlprow.
    pose proof (Forall_lookup_1 _ _ _ _ mid_rows Hrow) as Hlrow.
    simpl in *. rewrite length_splice; lia.
Qed.


(** A pixel of the new frame: inside the block it is the pixel of the
    value, outside it is the pixel of the old frame. *)
Lemma write_block_pixel (i j : nat) :
  pixel_at (write_block ys ye xs xe p frame) i j =
    if decide ((ys ≤ i < ye)%nat ∧ (xs ≤ j < xe)%nat)
    then pixel_at p (i - ys) (j - xs)
    else pixel_at frame i j.
Proof.
  destruct Hframe as [Hlen Hr]. destruct Hp as [Hlp Hrp].
  unfold pixel_at, write_block. fold mid.
  rewrite splice_lookup; [|lia|lia|apply length_new_rows].
  destruct (decide (ys ≤ i < ye)%nat) as [Hi|Hi].
  - rewrite lookup_zip_with.
    destruct (lookup_lt_is_Some_2 p (i - ys)) as [prow Hprow]; [lia|].
    assert (Hmid : mid !! (i - ys)%nat = frame !! i).
    { unfold mid. rewrite lookup_take_lt by lia. rewrite lookup_drop.
      f_equal. lia. }
    destruct (lookup_lt_is_Some_2 frame i) as [row Hrow]; [lia|].
    rewrite Hprow, Hmid, Hrow. simpl.
    pose proof (Forall_lookup_1 _ _ _ _ Hrp Hprow) as Hlprow.
    pose proof (Forall_lookup_1 _ _ _ _ Hr Hrow) as Hlrow. simpl in *.
    rewrite splice_lookup by lia.
    destruct (decide (xs ≤ j < xe)%nat) as [Hj|Hj].
    + rewrite decide_True by done. done.
    + rewrite decide_False by tauto. done.
  - rewrite decide_False by tauto. done.
Qed.
End Blocks.

Lemma mapM_broadcast_exact (n : nat) (p : Block) :
  Forall (fun row => length row = n) p → mapM (broadcast_to n) p = Some p.
Proof.
  intros Hp. apply mapM_Some_2.
  induction Hp as [|row p' Hrow _ IH]; constructor; [|done].
  by apply broadcast_to_exact.
Qed.

Lemma set_slice2_inside (H W : nat) (frame : Block) (r : Rect) (p : Block) :
  has_shape H W frame → (0 < H)%nat →
  inside (Z.of_nat H) (Z.of_nat W) r →
  has_shape (Z.to_nat (rect_height r)) (Z.to_nat (rect_width r)) p →
  set_slice2 frame (y_start r) (y_end r) (x_start r) (x_end r) p =
    Ret (write_block (fst (rows_of r)) (snd (rows_of r))
           (fst (cols_of r)) (snd (cols_of r)) p frame).
Proof.
  intros Hframe HH [Hy Hx] [Hlp Hrp]. unfold set_slice2.
  rewrite (has_shape_shape1 _ _ _ Hframe HH), Nat2Z.id.
  destruct Hframe as [Hlen _].
  rewrite !slice_bounds_inside by lia. simpl.
  unfold rect_height, rect_width in *.
  rewrite mapM_broadcast_exact; simpl.
  - rewrite broadcast_to_exact by lia. done.
  - eapply Forall_impl; [exact Hrp|]. intros row Hrow. simpl in *. lia.
Qed.

(** After the guard of lines 125-131 nothing else rejects and nothing
    raises: the frame is patched. *)
Lemma patch_array_accepted c frame g :
  is_raster frame = true →
  resolve c (shape0 frame) (shape1 frame) = Some g →
  patch_array c frame = (Ret true, patched frame g).
Proof.
  intros (Hframe & H0 & H1)%is_raster_has_shape Hres.
  pose proof (resolve_inside _ _ _ _ Hres) as (Hm & Ha & Hw).
  apply resolve_Some in Hres as Hg. destruct Hg as [Hg _].
  set (H := Z.to_nat (shape0 frame)) in *.
  set (W := Z.to_nat (shape1 frame)) in *.
  assert (EH : shape0 frame = Z.of_nat H) by (unfold H; lia).
  assert (EW : shape1 frame = Z.of_nat W) by (unfold W; lia).
  rewrite EH, EW in Hm, Ha, Hw.
  pose proof (block_at_shape H W frame Hframe _ Hm) as Sm.
  pose proof (block_at_shape H W frame Hframe _ Ha) as Sa.
  assert (Hmh : rect_height (mirror_src g) = mirror_height c)
    by (rewrite Hg; unfold rect_height; simpl; lia).
  assert (Hah : rect_height (adj_src g) = adjacent_patch_height c)
    by (rewrite Hg; unfold rect_height; simpl; lia).
  assert (Hmw : rect_width (mirror_src g) = patch_width c)
    by (rewrite Hg; unfold rect_width; simpl; lia).
  assert (Haw : rect_width (adj_src g) = patch_width c)
    by (rewrite Hg; unfold rect_width; simpl; lia).
  assert (Hwh : rect_height (wm g) = patch_height c)
    by (rewrite Hg; unfold rect_height; simpl; lia).
  assert (Hww : rect_width (wm g) = patch_width c)
    by (rewrite Hg; unfold rect_width; simpl; lia).
  assert (Hsum : mirror_height c + adjacent_patch_height c = patch_height c)
    by (unfold adjacent_patch_height; lia).
  assert (Pm : 0 < mirror_height c)
    by (rewrite <- Hmh; unfold rect_height; destruct Hm as [? _]; lia).
  assert (Pa : 0 < adjacent_patch_height c)
    by (rewrite <- Hah; unfold rect_height; destruct Ha as [? _]; lia).
  assert (Pw : 0 < patch_width c)
    by (rewrite <- Hmw; unfold rect_width; destruct Hm as [_ ?]; lia).
  rewrite Hmh, Hmw in Sm. rewrite Hah, Haw in Sa.
  pose proof (has_shape_reverse _ _ _ Sm) as Sr.
  pose proof (has_shape_app _ _ _ _ _ Sr Sa) as Sp.
  fold (patch_of frame g) in Sp.
  assert (Spw : has_shape (Z.to_nat (rect_height (wm g)))
                  (Z.to_nat (rect_width (wm g))) (patch_of frame g)).
  { rewrite Hwh, Hww, <- Hsum. by rewrite Z2Nat.inj_add by lia. }
  assert (Em0 : shape0 (block_at frame (mirror_src g)) = mirror_height c)
    by (rewrite (has_shape_shape0 _ _ _ Sm); lia).
  assert (Em1 : shape1 (block_at frame (mirror_src g)) = patch_width c)
    by (rewrite (has_shape_shape1 _ _ _ Sm); lia).
  assert (Er0 : shape0 (reverse (block_at frame (mirror_src g))) = mirror_height c)
    by (rewrite (has_shape_shape0 _ _ _ Sr); lia).
  assert (Er1 : shape1 (reverse (block_at frame (mirror_src g))) = patch_width c)
    by (rewrite (has_shape_shape1 _ _ _ Sr); lia).
  assert (Ea0 : shape0 (block_at frame (adj_src g)) = adjacent_patch_height c)
    by (rewrite (has_shape_shape0 _ _ _ Sa); lia).
  assert (Ea1 : shape1 (block_at frame (adj_src g)) = patch_width c)
    by (rewrite (has_shape_shape1 _ _ _ Sa); lia).
  assert (Ep0 : shape0 (patch_of frame g) = patch_height c)
    by (rewrite (has_shape_shape0 _ _ _ Sp); lia).
  assert (Ep1 : shape1 (patch_of frame g) = patch_width c)
    by (rewrite (has_shape_shape1 _ _ _ Sp); lia).
  unfold patch_array. rewrite Hres. unfold cv2_flip0.
  rewrite Em0, Em1.
  destruct (Z.eqb_spec (mirror_height c) 0) as [?|_]; [lia|].
  destruct (Z.eqb_spec (patch_width c) 0) as [?|_]; [lia|]. simpl.
  rewrite Er0, Er1, Ea0, Ea1, !Z.eqb_refl. simpl.
  unfold cv2_vconcat. rewrite Er1, Ea1, Z.eqb_refl.
  fold (patch_of frame g). rewrite Ep0, Ep1, !Z.eqb_refl. simpl.
  rewrite (set_slice2_inside H W); try done.
  unfold H. lia.
Qed.

Lemma patch_array_rejected c frame :
  resolve c (shape0 frame) (shape1 frame) = None →
  patch_array c frame = (Ret false, frame).
Proof. intros Hres. unfold patch_array. by rewrite Hres. Qed.

(** A frame that is not patched is not touched, raster or not. *)
Lemma patch_array_unpatched c frame r frame' :
  patch_array c frame = (r, frame') → r ≠ Ret true → frame' = frame.
Proof.
  unfold patch_array. intros Hrun Hr.
  repeat case_match; simplify_eq; done.
Qed.

(** ** The patch on a decoded frame *)

(** On a decoded frame [patch_array] returns, and it returns success exactly
    when [resolve] accepts. *)
Lemma patch_array_raster c frame :
  is_raster frame = true →
  match resolve c (shape0 frame) (shape1 frame) with
  | Some g => patch_array c frame = (Ret true, patched frame g)
  | None => patch_array c frame = (Ret false, frame)
  end.
Proof.
  intros Hr. destruct (resolve c (shape0 frame) (shape1 frame)) eqn:Hres.
  - by apply patch_array_accepted.
  - by apply patch_array_rejected.
Qed.

Section Patched.
Variables (c : PatchConfig) (frame : Block) (g : PatchGeometry).
Hypothesis Hraster : is_raster frame = true.
Hypothesis Hres : resolve c (shape0 frame) (shape1 frame) = Some g.

Let H := Z.to_nat (shape0 frame).
Let W := Z.to_nat (shape1 frame).

Lemma frame_shape : has_shape H W frame ∧ (0 < H)%nat ∧ (0 < W)%nat.
Proof.
  destruct (is_raster_has_shape _ Hraster) as (Hs & H0 & H1).
  split; [done|]. unfold H, W. lia.
Qed.

Lemma rects_inside :
  inside (Z.of_nat H) (Z.of_nat W) (mirror_src g)
  ∧ inside (Z.of_nat H) (Z.of_nat W) (adj_src g)
  ∧ inside (Z.of_nat H) (Z.of_nat W) (wm g).
Proof.
  destruct (is_raster_has_shape _ Hraster) as (_ & H0 & H1).
  unfold H, W. rewrite !Z2Nat.id by lia. by apply resolve_inside with c.
Qed.

Lemma geometry_heights :
  rect_height (mirror_src g) = mirror_height c
  ∧ rect_height (adj_src g) = adjacent_patch_height c
  ∧ rect_height (wm g) = mirror_height c + adjacent_patch_height c
  ∧ rect_width (mirror_src g) = rect_width (wm g)
  ∧ rect_width (adj_src g) = rect_width (wm g).
Proof.
  apply resolve_Some in Hres as [-> _].
  unfold rect_height, rect_width, adjacent_patch_height. simpl.
  unfold adjacent_patch_height. lia.
Qed.

Lemma patch_of_shape :
  has_shape (Z.to_nat (rect_height (wm g))) (Z.to_nat (rect_width (wm g)))
    (patch_of frame g).
Proof.
  destruct frame_shape as (Hs & _). destruct rects_inside as (Hm & Ha & Hw).
  destruct geometry_heights as (E1 & E2 & E3 & E4 & E5).
  pose proof (block_at_shape H W frame Hs _ Hm) as Sm.
  pose proof (block_at_shape H W frame Hs _ Ha) as Sa.
  rewrite E4 in Sm. rewrite E5 in Sa.
  pose proof (has_shape_app _ _ _ _ _ (has_shape_reverse _ _ _ Sm) Sa) as Sp.
  replace (Z.to_nat (rect_height (wm g))) with
    (Z.to_nat (rect_height (mirror_src g)) + Z.to_nat (rect_height (adj_src g)))%nat;
    [done|].
  destruct Hm as [? _], Ha as [? _]. unfold rect_height in *. lia.
Qed.

Lemma wm_positions :
  (fst (rows_of (wm g)) ≤ snd (rows_of (wm g)) ≤ H)%nat
  ∧ (fst (cols_of (wm g)) ≤ snd (cols_of (wm g)) ≤ W)%nat
  ∧ (snd (rows_of (wm g)) - fst (rows_of (wm g)))%nat = Z.to_nat (rect_height (wm g))
  ∧ (snd (cols_of (wm g)) - fst (cols_of (wm g)))%nat = Z.to_nat (rect_width (wm g)).
Proof.
  destruct rects_inside as (_ & _ & [Hy Hx]).
  unfold rect_height, rect_width. simpl. lia.
Qed.

(** The patched frame has the shape of the frame. *)
Lemma patched_shape : has_shape H W (patched frame g).
Proof.
  destruct frame_shape as (Hs & _).
  destruct wm_positions as (Hr & Hc & Er & Ec).
  apply write_block_shape; [done..|]. rewrite Er, Ec. apply patch_of_shape.
Qed.

Lemma patched_raster : is_raster (patched frame g) = true.
Proof.
  destruct frame_shape as (Hs & H0 & W0). pose proof patched_shape as Hp.
  apply is_raster_spec.
  rewrite (has_shape_shape0 _ _ _ Hp), (has_shape_shape1 _ _ _ Hp) by done.
  split; [lia|]. split; [lia|].
  destruct Hp as [_ Hrows]. eapply Forall_impl; [exact Hrows|].
  intros row Hrow. simpl in *. lia.
Qed.

Lemma patched_shape0 : shape0 (patched frame g) = shape0 frame.
Proof.
  destruct frame_shape as (Hs & _).
  by rewrite (has_shape_shape0 _ _ _ patched_shape), (has_shape_shape0 _ _ _ Hs).
Qed.

Lemma patched_shape1 : shape1 (patched frame g) = shape1 frame.
Proof.
  destruct frame_shape as (Hs & H0 & _).
  by rewrite (has_shape_shape1 _ _ _ patched_shape), (has_shape_shape1 _ _ _ Hs).
Qed.


(** Outside the target every pixel is the pixel of the frame. *)
Lemma patched_outside (i j : nat) :
  ¬ in_rect (wm g) i j → pixel_at (patched frame g) i j = pixel_at frame i j.
Proof.
  intros Hout. destruct frame_shape as (Hs & _).
  destruct rects_inside as (_ & _ & [Hy Hx]).
  destruct wm_positions as (Hr & Hc & Er & Ec).
  unfold patched. rewrite (write_block_pixel H W); [|done..|].
  - rewrite decide_False; [done|]. unfold in_rect in Hout. simpl. lia.
  - rewrite Er, Ec. apply patch_of_shape.
Qed.
End Patched.

(** Two frames of one shape that agree on a rectangle have the same block
    there. *)
Lemma block_at_ext (H W : nat) (a b : Block) (r : Rect) :
  has_shape H W a → has_shape H W b →
  inside (Z.of_nat H) (Z.of_nat W) r →
  (∀ i j, in_rect r i j → pixel_at a i j = pixel_at b i j) →
  block_at a r = block_at b r.
Proof.
  intros Ha Hb Hin Hsame.
  rewrite (block_at_inside H W a Ha r Hin), (block_at_inside H W b Hb r Hin).
  destruct Hin as [Hy Hx]. destruct Ha as [Hla Hra], Hb as [Hlb Hrb]. simpl.
  apply list_eq. intros i. rewrite !list_lookup_fmap.
  destruct (decide (i < Z.to_nat (y_end r) - Z.to_nat (y_start r))%nat) as [Hi|Hi].
  - rewrite !lookup_take_lt by done. rewrite !lookup_drop.
    set (k := (Z.to_nat (y_start r) + i)%nat).
    destruct (lookup_lt_is_Some_2 a k) as [ra Hka]; [unfold k; lia|].
    destruct (lookup_lt_is_Some_2 b k) as [rb Hkb]; [unfold k; lia|].
    rewrite Hka, Hkb. simpl. f_equal.
    pose proof (Forall_lookup_1 _ _ _ _ Hra Hka) as Lra.
    pose proof (Forall_lookup_1 _ _ _ _ Hrb Hkb) as Lrb. simpl in *.
    apply list_eq. intros j.
    destruct (decide (j < Z.to_nat (x_end r) - Z.to_nat (x_start r))%nat) as [Hj|Hj].
    + rewrite !lookup_take_lt by done. rewrite !lookup_drop.
      specialize (Hsame k (Z.to_nat (x_start r) + j)%nat).
      unfold pixel_at in Hsame. rewrite Hka, Hkb in Hsame. simpl in Hsame.
      apply Hsame. unfold in_rect, k. lia.
    + rewrite !lookup_take_ge by lia. done.
  - rewrite !lookup_take_ge by lia. done.
Qed.

(** ** [patch_frame] *)

Lemma cv2_imread_raster disk path frame :
  cv2_imread disk path = Some frame → is_raster frame = true.
Proof.
  unfold cv2_imread. intros Hread. repeat case_match; simplify_eq. done.
Qed.

Lemma cv2_imread_imwrite disk path frame :
  is_raster frame = true →
  cv2_imread (cv2_imwrite path frame disk) path = Some frame.
Proof.
  intros Hr. unfold cv2_imread, cv2_imwrite.
  rewrite lookup_insert_eq. by rewrite Hr.
Qed.

(** The three ways through [patch_frame]: no image, an image that [resolve]
    rejects, an image that is patched and written back.  It never raises. *)
Lemma patch_frame_cases fname input_dir c disk :
  let path := os_path_join input_dir fname in
  match cv2_imread disk path with
  | None => patch_frame fname input_dir c disk = (Ret false, disk)
  | Some frame =>
      match resolve c (shape0 frame) (shape1 frame) with
      | None => patch_frame fname input_dir c disk = (Ret false, disk)
      | Some g =>
          patch_frame fname input_dir c disk =
            (Ret true, cv2_imwrite path (patched frame g) disk)
      end
  end.
Proof.
  intros path. unfold patch_frame. fold path.
  destruct (cv2_imread disk path) as [frame|] eqn:Hread; [|done].
  pose proof (patch_array_raster c frame (cv2_imread_raster _ _ _ Hread)) as Hcase.
  destruct (resolve c (shape0 frame) (shape1 frame)) as [g|]; by rewrite Hcase.
Qed.

Lemma patch_frame_success fname input_dir c disk disk' :
  patch_frame fname input_dir c disk = (Ret true, disk') →
  ∃ frame g,
    cv2_imread disk (os_path_join input_dir fname) = Some frame
    ∧ resolve c (shape0 frame) (shape1 frame) = Some g
    ∧ disk' = cv2_imwrite (os_path_join input_dir fname) (patched frame g) disk.
Proof.
  intros Hrun. pose proof (patch_frame_cases fname input_dir c disk) as Hcase.
  simpl in Hcase.
  destruct (cv2_imread disk (os_path_join input_dir fname)) as [frame|] eqn:Hread;
    [|congruence].
  destruct (resolve c (shape0 frame) (shape1 frame)) as [g|] eqn:Hres;
    [|congruence].
  exists frame, g. split; [done|]. split; [done|]. congruence.
Qed.

Lemma patch_frame_returns fname input_dir c disk :
  ∃ b, fst (patch_frame fname input_dir c disk) = Ret b.
Proof.
  pose proof (patch_frame_cases fname input_dir c disk) as Hcase.
  simpl in Hcase. repeat case_match; rewrite Hcase; eauto.
Qed.



(** C6.  When [patch_frame] rejects, the directory is as it was, and so is
    the array that was read, if one was. *)
Theorem reject_leaves_frame fname input_dir c disk disk' :
  patch_frame fname input_dir c disk = (Ret false, disk') →
  disk' = disk
  ∧ ∀ frame, cv2_imread disk (os_path_join input_dir fname) = Some frame →
             patch_array c frame = (Ret false, frame).
Proof.
  intros Hrun. pose proof (patch_frame_cases fname input_dir c disk) as Hcase.
  simpl in Hcase.
  destruct (cv2_imread disk (os_path_join input_dir fname)) as [frame|] eqn:Hread.
  - destruct (resolve c (shape0 frame) (shape1 frame)) as [g|] eqn:Hres;
      [congruence|].
    split; [congruence|]. intros ? [= <-]. by apply patch_array_rejected.
  - split; [congruence|]. intros ? [=].
Qed.

Lemma reject_leaves_frame_witness :
  snd (patch_frame "frame_00001.png" "frames" bushnell
         (one_frame_dir (Image frame_4x2)))
  = one_frame_dir (Image frame_4x2)
  ∧ snd (patch_frame "frame_00001.png" "frames" bushnell
           (one_frame_dir Unreadable))
    = one_frame_dir Unreadable.
Proof.
  split.
  - refine (proj1 (reject_leaves_frame "frame_00001.png" "frames" bushnell
                     (one_frame_dir (Image frame_4x2)) _ _)).
    reflexivity.
  - refine (proj1 (reject_leaves_frame "frame_00001.png" "frames" bushnell
                     (one_frame_dir Unreadable) _ _)).
    reflexivity.
Defined.

(** C9 (amended).  When [patch_frame] succeeds, the frame written back has
    the height and the width of the frame read, every pixel outside the
    target rectangle is the pixel read, the adjacent source is as it was,
    and so is the mirror source when its rows do not meet the rows of the
    target; no other file of the directory changes. *)
Theorem patch_changes_target_only fname input_dir c disk disk' :
  patch_frame fname input_dir c disk = (Ret true, disk') →
  ∃ frame g frame',
    cv2_imread disk (os_path_join input_dir fname) = Some frame
    ∧ resolve c (shape0 frame) (shape1 frame) = Some g
    ∧ cv2_imread disk' (os_path_join input_dir fname) = Some frame'
    ∧ shape0 frame' = shape0 frame
    ∧ shape1 frame' = shape1 frame
    ∧ (∀ i j, ¬ in_rect (wm g) i j → pixel_at frame' i j = pixel_at frame i j)
    ∧ block_at frame' (adj_src g) = block_at frame (adj_src g)
    ∧ (y_end (mirror_src g) ≤ y_start (wm g) ∨ y_end (wm g) ≤ y_start (mirror_src g) →
       block_at frame' (mirror_src g) = block_at frame (mirror_src g))
    ∧ (∀ other, other ≠ os_path_join input_dir fname → disk' !! other = disk !! other).
Proof.
  intros (frame & g & Hread & Hres & ->)%patch_frame_success.
  pose proof (cv2_imread_raster _ _ _ Hread) as Hr.
  exists frame, g, (patched frame g).
  destruct (frame_shape frame Hr) as (Hs & _).
  destruct (rects_inside c frame g Hr Hres) as (Hm & Ha & Hw).
  pose proof (patched_shape c frame g Hr Hres) as Hs'.
  pose proof (patched_outside c frame g Hr Hres) as Hout.
  apply resolve_Some in Hres as Hg. destruct Hg as [Hg _].
  split; [done|]. split; [done|].
  split; [apply cv2_imread_imwrite, (patched_raster c); done|].
  split; [by apply (patched_shape0 c)|].
  split; [by apply (patched_shape1 c)|].
  split; [done|].
  split; [|split].
  - apply (block_at_ext _ _ _ _ _ Hs' Hs Ha). intros i j Hin. apply Hout.
    unfold in_rect in *. rewrite Hg in *. simpl in *. lia.
  - intros Hapart.
    apply (block_at_ext _ _ _ _ _ Hs' Hs Hm). intros i j Hin. apply Hout.
    unfold in_rect in *. lia.
  - intros other Hother. unfold cv2_imwrite. by apply lookup_insert_ne.
Qed.

Lemma patch_changes_target_only_witness :
  ∃ frame',
    cv2_imread
      (snd (patch_frame "frame_00001.png" "frames" tiny
              (one_frame_dir (Image frame_4x2))))
      "frames/frame_00001.png" = Some frame'
    ∧ shape0 frame' = 4 ∧ shape1 frame' = 2
    ∧ pixel_at frame' 1 0 = Some (grey x03)
    ∧ pixel_at frame' 3 1 = Some (grey x08).
Proof.
  assert (Hrun : patch_frame "frame_00001.png" "frames" tiny
                   (one_frame_dir (Image frame_4x2))
                 = (Ret true,
                    snd (patch_frame "frame_00001.png" "frames" tiny
                           (one_frame_dir (Image frame_4x2)))))
    by reflexivity.
  destruct (patch_changes_target_only _ _ _ _ _ Hrun)
    as (frame & g & frame' & Hread & Hres & Hread' & H0 & H1 & Hout & _).
  exists frame'. split; [exact Hread'|].
  assert (Hread0 : cv2_imread (one_frame_dir (Image frame_4x2))
                     (os_path_join "frames" "frame_00001.png") = Some frame_4x2)
    by reflexivity.
  assert (Hf : frame = frame_4x2) by congruence.
  subst frame.
  assert (Hres0 : resolve tiny (shape0 frame_4x2) (shape1 frame_4x2)
                  = Some (geometry tiny 4)) by reflexivity.
  assert (Hg : g = geometry tiny 4) by congruence.
  subst g.
  split; [exact H0|]. split; [exact H1|]. split.
  - apply (Hout 1%nat 0%nat). unfold in_rect. simpl. lia.
  - apply (Hout 3%nat 1%nat). unfold in_rect. simpl. lia.
Defined.

(** C9 as it is worded fails when the mirror source overlaps the target.
    With [--mirror-offset 0] on a 4 x 2 frame the patch succeeds and the
    mirror source, rows 1 and 2 of column 0, holds other pixels than
    before. *)
Lemma mirror_source_overwritten :
  fst (patch_frame "frame_00001.png" "frames" overlapping
         (one_frame_dir (Image frame_4x2))) = Ret true
  ∧ cv2_imread
      (snd (patch_frame "frame_00001.png" "frames" overlapping
              (one_frame_dir (Image frame_4x2))))
      "frames/frame_00001.png" = Some frame_4x2_overlapped
  ∧ resolve overlapping (shape0 frame_4x2) (shape1 frame_4x2)
    = Some (geometry overlapping 4)
  ∧ block_at frame_4x2 (mirror_src (geometry overlapping 4))
    = [[grey x03]; [grey x05]]
  ∧ block_at frame_4x2_overlapped (mirror_src (geometry overlapping 4))
    = [[grey x05]; [grey x03]].
Proof. repeat split; reflexivity. Qed.

(** ** [patch_frames] *)

(** What [patch_frame] returns depends on the file at its path alone. *)
Lemma patch_frame_result_agree fname input_dir c disk1 disk2 :
  disk1 !! os_path_join input_dir fname = disk2 !! os_path_join input_dir fname →
  fst (patch_frame fname input_dir c disk1) = fst (patch_frame fname input_dir c disk2).
Proof.
  intros Hsame.
  pose proof (patch_frame_cases fname input_dir c disk1) as H1.
  pose proof (patch_frame_cases fname input_dir c disk2) as H2.
  simpl in H1, H2. unfold cv2_imread in *. rewrite <- Hsame in H2.
  repeat case_match; rewrite H1, H2; done.
Qed.

Lemma patch_frame_file_agree fname input_dir c disk1 disk2 :
  disk1 !! os_path_join input_dir fname = disk2 !! os_path_join input_dir fname →
  snd (patch_frame fname input_dir c disk1) !! os_path_join input_dir fname
  = snd (patch_frame fname input_dir c disk2) !! os_path_join input_dir fname.
Proof.
  intros Hsame.
  pose proof (patch_frame_cases fname input_dir c disk1) as H1.
  pose proof (patch_frame_cases fname input_dir c disk2) as H2.
  simpl in H1, H2. unfold cv2_imread in *. rewrite <- Hsame in H2.
  repeat case_match; rewrite H1, H2; simpl; try congruence;
    unfold cv2_imwrite; by rewrite !lookup_insert_eq.
Qed.

(** It writes to no other path. *)
Lemma patch_frame_other fname input_dir c disk other :
  other ≠ os_path_join input_dir fname →
  snd (patch_frame fname input_dir c disk) !! other = disk !! other.
Proof.
  intros Hother.
  pose proof (patch_frame_cases fname input_dir c disk) as Hcase.
  simpl in Hcase. repeat case_match; rewrite Hcase; simpl; try done.
  unfold cv2_imwrite. by apply lookup_insert_ne.
Qed.

Section Batch.
Variables (tmpdir : string) (c : PatchConfig).

Let worker := fun fname => _global_patch_frame_wrapper fname tmpdir c.
Let path := os_path_join tmpdir.

(** Every frame gets a result, whatever the results before it. *)
Lemma pool_map_returns files disk :
  ∃ results disk',
    pool_map worker files disk = (Ret results, disk')
    ∧ length results = length files.
Proof.
  revert disk. induction files as [|f files IH]; intros disk; simpl.
  - by exists [], disk.
  - unfold worker at 1, _global_patch_frame_wrapper.
    destruct (patch_frame_returns f tmpdir c disk) as [b Hb].
    destruct (patch_frame f tmpdir c disk) as [r d1]. simpl in Hb. subst r.
    destruct (IH d1) as (rs & d' & -> & Hlen).
    exists (b :: rs), d'. split; [done|]. simpl. by rewrite Hlen.
Qed.

(** The frame files have paths of their own, so each one is patched as if
    it were alone. *)
Lemma pool_map_independent files disk results disk' :
  NoDup (path <$> files) →
  pool_map worker files disk = (Ret results, disk') →
  Ret <$> results = (fun f => fst (patch_frame f tmpdir c disk)) <$> files
  ∧ (∀ f, f ∈ files →
          disk' !! path f = snd (patch_frame f tmpdir c disk) !! path f)
  ∧ (∀ other, other ∉ path <$> files → disk' !! other = disk !! other).
Proof.
  revert disk results disk'.
  induction files as [|f files IH]; intros disk results disk' Hnd Hrun;
    simpl in Hrun.
  - injection Hrun as <- <-. split; [done|]. split; [|done].
    intros f Hf. by apply elem_of_nil in Hf.
  - unfold worker at 1, _global_patch_frame_wrapper in Hrun.
    destruct (patch_frame f tmpdir c disk) as [r d1] eqn:Hf.
    destruct r as [b|e]; [|done].
    destruct (pool_map worker files d1) as [rs d2] eqn:Hrest.
    destruct rs as [rs|e]; [|done]. injection Hrun as <- <-.
    rewrite fmap_cons in Hnd. apply NoDup_cons in Hnd as [Hfresh Hnd].
    destruct (IH d1 rs d2 Hnd Hrest) as (Hres & Hfiles & Hothers).
    assert (Hd1 : ∀ other, other ≠ path f → d1 !! other = disk !! other).
    { intros other Ho. replace d1 with (snd (patch_frame f tmpdir c disk))
        by (by rewrite Hf).
      by apply patch_frame_other. }
    assert (Hne : ∀ f', f' ∈ files → path f' ≠ path f).
    { intros f' Hf' Heq. apply Hfresh. rewrite <- Heq.
      by apply list_elem_of_fmap_2. }
    split; [|split].
    + rewrite !fmap_cons, Hf. simpl. f_equal. rewrite Hres.
      apply list_fmap_ext. intros i f' Hf'.
      apply patch_frame_result_agree, Hd1, Hne.
      by apply list_elem_of_lookup_2 with i.
    + intros f' [->|Hf']%elem_of_cons.
      * rewrite Hothers by done. by rewrite Hf.
      * rewrite (Hfiles f' Hf'). apply patch_frame_file_agree.
        by apply Hd1, Hne.
    + intros other Ho. rewrite fmap_cons in Ho.
      apply not_elem_of_cons in Ho as [Ho1 Ho2].
      rewrite (Hothers other Ho2). by apply Hd1.
Qed.
End Batch.

(** Names that are not absolute paths get paths of their own. *)
Lemma os_path_join_inj dir f1 f2 :
  String.prefix "/" f1 = false → String.prefix "/" f2 = false →
  os_path_join dir f1 = os_path_join dir f2 → f1 = f2.
Proof.
  intros H1 H2. unfold os_path_join. rewrite H1, H2.
  destruct (String.eqb dir "" || endswith dir "/"); intros Heq.
  - by apply String.app_inj in Heq.
  - apply String.app_inj in Heq. by apply (String.app_inj "/") in Heq.
Qed.

Lemma frame_files_of_perm entries :
  frame_files_of entries ≡ₚ filter (fun f => endswith f ".png" = true) entries.
Proof. apply merge_sort_Permutation. Qed.

Lemma frame_files_of_elem entries f :
  f ∈ frame_files_of entries → f ∈ entries.
Proof.
  rewrite frame_files_of_perm. intros [_ Hf]%list_elem_of_filter. done.
Qed.

Lemma frame_files_of_paths entries dir :
  NoDup entries → Forall (fun f => String.prefix "/" f = false) entries →
  NoDup (os_path_join dir <$> frame_files_of entries).
Proof.
  intros Hnd Hrel. apply NoDup_fmap_2_strong.
  - intros f1 f2 Hf1%frame_files_of_elem Hf2%frame_files_of_elem.
    rewrite Forall_forall in Hrel. apply os_path_join_inj; by apply Hrel.
  - rewrite frame_files_of_perm. by apply NoDup_filter.
Qed.



(** With a positive worker count the pool is up. *)
Lemma process_map_up worker files (max_workers : Z) disk :
  0 < max_workers →
  process_map worker files max_workers disk = pool_map worker files disk.
Proof.
  intros Hpos. unfold process_map.
  destruct (Z.leb_spec max_workers 0); [lia|done].
Qed.

(** Without one, nothing runs. *)
Lemma process_map_down worker files (max_workers : Z) disk :
  max_workers ≤ 0 →
  process_map worker files max_workers disk = (Raise ValueError, disk).
Proof.
  intros Hneg. unfold process_map.
  destruct (Z.leb_spec max_workers 0); [done|lia].
Qed.




(** ** [get_fps] *)

Lemma app_String ch (a s : string) : String ch a +:+ s = String ch (a +:+ s).
Proof. reflexivity. Qed.

Lemma str_contains_app sep (a b : string) :
  str_contains sep (a +:+ String sep b) = true.
Proof.
  induction a as [|ch a IH].
  - simpl. by rewrite Ascii.eqb_refl.
  - rewrite app_String. simpl. rewrite IH. by rewrite orb_true_r.
Qed.

Lemma str_split_single sep (s : string) :
  str_contains sep s = false → str_split sep s = [s].
Proof.
  induction s as [|ch s IH]; simpl; [done|].
  intros [Hch Hs]%orb_false_iff. rewrite Hch, (IH Hs). done.
Qed.

Lemma str_split_app sep (a b : string) :
  str_contains sep a = false →
  str_split sep (a +:+ String sep b) = a :: str_split sep b.
Proof.
  induction a as [|ch a IH]; simpl.
  - intros _. change ("" +:+ String sep b) with (String sep b). simpl.
    by rewrite Ascii.eqb_refl.
  - intros [Hch Ha]%orb_false_iff. rewrite Hch, (IH Ha). done.
Qed.

(** A rational string: the quotient, or the numerator when the denominator
    is zero. *)
Lemma get_fps_rational py_float (num denom : string) a b :
  str_contains "/" num = false → str_contains "/" denom = false →
  py_float num = Some a → py_float denom = Some b →
  get_fps py_float (num +:+ "/" +:+ denom) =
    Ret (if PrimFloat.eqb b 0 then a else PrimFloat.div a b).
Proof.
  intros Hn Hd Ha Hb. unfold get_fps.
  change ("/" +:+ denom) with (String "/" denom).
  rewrite str_contains_app, (str_split_app _ _ _ Hn), (str_split_single _ _ Hd).
  simpl. rewrite Ha, Hb. simpl. unfold py_bool, py_truediv.
  by destruct (PrimFloat.eqb b 0).
Qed.

Lemma get_fps_plain py_float (s : string) a :
  str_contains "/" s = false → py_float s = Some a →
  get_fps py_float s = Ret a.
Proof. intros Hs Ha. unfold get_fps. by rewrite Hs, Ha. Qed.

(** The division of line 38 is never by zero. *)
Lemma get_fps_no_zero_division py_float fps_str :
  get_fps py_float fps_str ≠ Raise ZeroDivisionError.
Proof.
  unfold get_fps, py_bool, py_truediv.
  repeat case_match; simplify_eq/=; done.
Qed.

Lemma float_of_numeral_reads : reads_decimals float_of_numeral.
Proof. intros s n Hs. unfold float_of_numeral. by rewrite Hs. Qed.

(** C8.  For every [float] that reads decimal numerals: [get_fps] never
    raises [ZeroDivisionError]; a string [num/denom] resolves to the
    quotient of the two floats, or to the numerator when the denominator is
    zero; ["30000/1001"] resolves to the double [30000.0 / 1001.0], which is
    within 0.005 of 29.97; and ["25"] resolves to [25.0]. *)
Theorem frame_rate_by_division py_float :
  reads_decimals py_float →
  (∀ fps_str, get_fps py_float fps_str ≠ Raise ZeroDivisionError)
  ∧ (∀ num denom a b,
       str_contains "/" num = false → str_contains "/" denom = false →
       py_float num = Some a → py_float denom = Some b →
       get_fps py_float (num +:+ "/" +:+ denom) =
         Ret (if PrimFloat.eqb b 0 then a else PrimFloat.div a b))
  ∧ (∃ r q, get_fps py_float "30000/1001" = Ret r
            ∧ r = PrimFloat.div 30000 1001
            ∧ float_to_Q r = Some q
            ∧ (Qabs (q - (2997 # 100)) < 1 # 200)%Q)
  ∧ get_fps py_float "25" = Ret 25%float.
Proof.
  intros Hread. split; [apply get_fps_no_zero_division|].
  split; [apply get_fps_rational|]. split.
  - exists (PrimFloat.div 30000 1001).
    eexists. split; [|split; [reflexivity|split; [vm_compute; reflexivity|]]].
    + change "30000/1001"%string with ("30000" +:+ "/" +:+ "1001").
      rewrite (get_fps_rational py_float "30000" "1001"
                 (float_of_Z 30000) (float_of_Z 1001));
        [vm_compute; reflexivity|reflexivity|reflexivity| |];
        by apply Hread.
    + vm_compute. reflexivity.
  - apply get_fps_plain; [reflexivity|]. by apply (Hread "25" 25).
Qed.

Lemma frame_rate_by_division_witness :
  get_fps float_of_numeral "30000/1001" = Ret (PrimFloat.div 30000 1001)
  ∧ get_fps float_of_numeral "25" = Ret 25%float
  ∧ get_fps float_of_numeral "24/1" = Ret 24%float.
Proof.
  destruct (frame_rate_by_division float_of_numeral float_of_numeral_reads)
    as (_ & Hdiv & (r & q & Hr & -> & _) & H25).
  split; [exact Hr|]. split; [exact H25|].
  exact (Hdiv "24" "1" 24%float 1%float eq_refl eq_refl eq_refl eq_refl).
Defined.

(** C10.  For every [float] that reads decimal numerals, a string
    [num/denom] whose denominator reads as zero resolves to the numerator,
    and ["30/0"] resolves to [30.0]; nothing is raised. *)
Theorem zero_denominator_gives_numerator py_float :
  reads_decimals py_float →
  (∀ num denom a b,
     str_contains "/" num = false → str_contains "/" denom = false →
     py_float num = Some a → py_float denom = Some b →
     PrimFloat.eqb b 0 = true →
     get_fps py_float (num +:+ "/" +:+ denom) = Ret a)
  ∧ get_fps py_float "30/0" = Ret 30%float.
Proof.
  intros Hread. split.
  - intros num denom a b Hn Hd Ha Hb Hzero.
    rewrite (get_fps_rational py_float num denom a b) by done.
    by rewrite Hzero.
  - change "30/0"%string with ("30" +:+ "/" +:+ "0").
    rewrite (get_fps_rational py_float "30" "0" (float_of_Z 30) (float_of_Z 0));
      [vm_compute; reflexivity|reflexivity|reflexivity| |]; by apply Hread.
Qed.

Lemma zero_denominator_gives_numerator_witness :
  get_fps float_of_numeral "30/0" = Ret 30%float.
Proof.
  exact (proj2 (zero_denominator_gives_numerator float_of_numeral
                  float_of_numeral_reads)).
Defined.

(** * Further properties *)

(** ** What [patch_frame] returns *)

Lemma patch_frame_true_iff fname input_dir c disk :
  fst (patch_frame fname input_dir c disk) = Ret true ↔
  ∃ frame, cv2_imread disk (os_path_join input_dir fname) = Some frame
           ∧ is_Some (resolve c (shape0 frame) (shape1 frame)).
Proof.
  pose proof (patch_frame_cases fname input_dir c disk) as Hcase.
  simpl in Hcase.
  destruct (cv2_imread disk (os_path_join input_dir fname)) as [frame|] eqn:Hread.
  - destruct (resolve c (shape0 frame) (shape1 frame)) as [g|] eqn:Hres;
      rewrite Hcase; simpl; split.
    + intros _. exists frame. split; [done|]. rewrite Hres. by eexists.
    + done.
    + done.
    + intros (frame' & [= <-] & Hsome). rewrite Hres in Hsome.
      by destruct Hsome.
  - rewrite Hcase. simpl. split; [done|]. by intros (frame & [=] & _).
Qed.

(** X1.  [patch_frame] never raises: it returns a boolean, and the boolean
    is [True] exactly when the file decodes to an image and the
    configuration fits its height and width.  So the shape tests of lines
    137-156 never reject a frame and [cv2.flip], [cv2.vconcat] and the
    assignment of line 158 never fail. *)
Theorem patch_frame_verdict fname input_dir c disk :
  (∃ b, fst (patch_frame fname input_dir c disk) = Ret b)
  ∧ (fst (patch_frame fname input_dir c disk) = Ret true ↔
     ∃ frame, cv2_imread disk (os_path_join input_dir fname) = Some frame
              ∧ fits c (shape0 frame) (shape1 frame)).
Proof.
  split; [apply patch_frame_returns|].
  rewrite patch_frame_true_iff. split.
  - intros (frame & Hread & Hsome). exists frame. split; [done|].
    by apply resolve_accepts_iff.
  - intros (frame & Hread & Hfit). exists frame. split; [done|].
    by apply resolve_accepts_iff.
Qed.

(** ** Pixels of blocks and frames *)


Lemma frame_ext (H W : nat) (a b : Block) :
  has_shape H W a → has_shape H W b →
  (∀ i j, pixel_at a i j = pixel_at b i j) → a = b.
Proof.
  intros [Hla Hra] [Hlb Hrb] Hsame. apply list_eq. intros i.
  destruct (decide (i < H)%nat) as [Hi|Hi].
  - destruct (lookup_lt_is_Some_2 a i) as [ra Hia]; [lia|].
    destruct (lookup_lt_is_Some_2 b i) as [rb Hib]; [lia|].
    rewrite Hia, Hib. f_equal. apply list_eq. intros j.
    specialize (Hsame i j). unfold pixel_at in Hsame.
    by rewrite Hia, Hib in Hsame.
  - rewrite !lookup_ge_None_2 by lia. done.
Qed.

Section PatchedSources.
Variables (c : PatchConfig) (frame : Block) (g : PatchGeometry).
Hypothesis Hraster : is_raster frame = true.
Hypothesis Hres : resolve c (shape0 frame) (shape1 frame) = Some g.

(** The adjacent source lies to the right of the target. *)
Lemma patched_adj_block :
  block_at (patched frame g) (adj_src g) = block_at frame (adj_src g).
Proof.
  destruct (frame_shape frame Hraster) as (Hs & _).
  destruct (rects_inside c frame g Hraster Hres) as (_ & Ha & _).
  apply (block_at_ext _ _ _ _ _ (patched_shape c frame g Hraster Hres) Hs Ha).
  intros i j Hin. apply (patched_outside c frame g Hraster Hres).
  apply resolve_Some in Hres as [Hg _].
  unfold in_rect in *. rewrite Hg in *. simpl in *. lia.
Qed.

Lemma patched_mirror_block :
  y_end (mirror_src g) ≤ y_start (wm g) ∨ y_end (wm g) ≤ y_start (mirror_src g) →
  block_at (patched frame g) (mirror_src g) = block_at frame (mirror_src g).
Proof.
  intros Hapart. destruct (frame_shape frame Hraster) as (Hs & _).
  destruct (rects_inside c frame g Hraster Hres) as (Hm & _ & _).
  apply (block_at_ext _ _ _ _ _ (patched_shape c frame g Hraster Hres) Hs Hm).
  intros i j Hin. apply (patched_outside c frame g Hraster Hres).
  unfold in_rect in *. lia.
Qed.

(** The patched frame is accepted again, with the same rectangles. *)
Lemma patched_resolve :
  resolve c (shape0 (patched frame g)) (shape1 (patched frame g)) = Some g.
Proof.
  by rewrite (patched_shape0 c frame g Hraster Hres),
    (patched_shape1 c frame g Hraster Hres).
Qed.

(** A pixel of the patched frame, by position. *)
Lemma patched_pixel (i j : nat) :
  pixel_at (patched frame g) i j =
    if decide (in_rect (wm g) i j)
    then pixel_at (patch_of frame g)
           (i - Z.to_nat (y_start (wm g))) (j - Z.to_nat (x_start (wm g)))
    else pixel_at frame i j.
Proof.
  destruct (frame_shape frame Hraster) as (Hs & _).
  destruct (rects_inside c frame g Hraster Hres) as (_ & _ & [Hy Hx]).
  destruct (wm_positions c frame g Hraster Hres) as (Hr & Hc & Er & Ec).
  unfold patched. rewrite (write_block_pixel _ _ _ Hs); [|done..|].
  - simpl. unfold in_rect. repeat case_decide; try done; lia.
  - rewrite Er, Ec. apply (patch_of_shape c frame g Hraster Hres).
Qed.

(** Patching again with the same patch changes nothing. *)
Lemma patched_again :
  patch_of (patched frame g) g = patch_of frame g →
  patched (patched frame g) g = patched frame g.
Proof.
  intros Hsame.
  pose proof (patched_shape c frame g Hraster Hres) as Hs'.
  pose proof (patched_raster c frame g Hraster Hres) as Hr'.
  pose proof (patched_shape c (patched frame g) g Hr' patched_resolve) as Hs''.
  rewrite (patched_shape0 c frame g Hraster Hres),
    (patched_shape1 c frame g Hraster Hres) in Hs''.
  apply (frame_ext _ _ _ _ Hs'' Hs'). intros i j.
  unfold patched at 1. fold (patched frame g).
  destruct (frame_shape frame Hraster) as (Hs & _).
  destruct (wm_positions c frame g Hraster Hres) as (Hr & Hc & Er & Ec).
  rewrite (write_block_pixel _ _ _ Hs'); [|done..|].
  - rewrite Hsame. rewrite patched_pixel. simpl.
    unfold in_rect.
    destruct (rects_inside c frame g Hraster Hres) as (_ & _ & [Hy Hx]).
    repeat case_decide; try done; lia.
  - rewrite Hsame, Er, Ec. apply (patch_of_shape c frame g Hraster Hres).
Qed.
End PatchedSources.

(** ** Running [patch_frame] again *)

(** The second run of [patch_frame] on a file it has patched. *)
Lemma patch_frame_twice fname input_dir c disk frame g :
  cv2_imread disk (os_path_join input_dir fname) = Some frame →
  resolve c (shape0 frame) (shape1 frame) = Some g →
  patch_frame fname input_dir c (snd (patch_frame fname input_dir c disk)) =
    (Ret true,
     cv2_imwrite (os_path_join input_dir fname) (patched (patched frame g) g) disk).
Proof.
  intros Hread Hres. pose proof (cv2_imread_raster _ _ _ Hread) as Hr.
  pose proof (patch_frame_cases fname input_dir c disk) as H1.
  simpl in H1. rewrite Hread, Hres in H1. rewrite H1. simpl.
  pose proof (patch_frame_cases fname input_dir c
                (cv2_imwrite (os_path_join input_dir fname) (patched frame g) disk))
    as H2.
  simpl in H2.
  rewrite (cv2_imread_imwrite _ _ _ (patched_raster c frame g Hr Hres)) in H2.
  rewrite (patched_resolve c frame g Hr Hres) in H2. rewrite H2.
  unfold cv2_imwrite. by rewrite insert_insert_eq.
Qed.

Lemma rerun_verdict fname input_dir c disk :
  fst (patch_frame fname input_dir c (snd (patch_frame fname input_dir c disk)))
  = fst (patch_frame fname input_dir c disk).
Proof.
  pose proof (patch_frame_cases fname input_dir c disk) as Hcase.
  simpl in Hcase.
  destruct (cv2_imread disk (os_path_join input_dir fname)) as [frame|] eqn:Hread.
  - destruct (resolve c (shape0 frame) (shape1 frame)) as [g|] eqn:Hres.
    + rewrite (patch_frame_twice _ _ _ _ _ _ Hread Hres). by rewrite Hcase.
    + rewrite Hcase. simpl. by rewrite Hcase.
  - rewrite Hcase. simpl. by rewrite Hcase.
Qed.

(** X2.  Running [patch_frame] again on the directory it leaves gives the
    same verdict: a frame that was patched is patched again, a file that
    was rejected is rejected again.  When the rows of the mirror source do
    not meet the rows of the target ([mirror_height <= mirror_offset], or
    the source wholly below the target), the second run also leaves the
    directory as the first run left it: patching is idempotent. *)
Theorem patch_frame_rerun fname input_dir c disk :
  fst (patch_frame fname input_dir c (snd (patch_frame fname input_dir c disk)))
  = fst (patch_frame fname input_dir c disk)
  ∧ (mirror_height c ≤ mirror_offset c ∨ mirror_offset c ≤ - patch_height c →
     snd (patch_frame fname input_dir c (snd (patch_frame fname input_dir c disk)))
     = snd (patch_frame fname input_dir c disk)).
Proof.
  split; [apply rerun_verdict|]. intros Hapart.
  pose proof (patch_frame_cases fname input_dir c disk) as Hcase.
  simpl in Hcase.
  destruct (cv2_imread disk (os_path_join input_dir fname)) as [frame|] eqn:Hread.
  - destruct (resolve c (shape0 frame) (shape1 frame)) as [g|] eqn:Hres.
    + pose proof (cv2_imread_raster _ _ _ Hread) as Hr.
      rewrite (patch_frame_twice _ _ _ _ _ _ Hread Hres), Hcase. simpl.
      f_equal. apply (patched_again c frame g Hr Hres).
      unfold patch_of.
      rewrite (patched_adj_block c frame g Hr Hres).
      rewrite (patched_mirror_block c frame g Hr Hres); [done|].
      apply resolve_Some in Hres as [-> _]. simpl. lia.
    + rewrite Hcase. simpl. by rewrite Hcase.
  - rewrite Hcase. simpl. by rewrite Hcase.
Qed.

Lemma patch_frame_rerun_witness :
  snd (patch_frame "frame_00001.png" "frames" tiny
         (snd (patch_frame "frame_00001.png" "frames" tiny
                 (one_frame_dir (Image frame_4x2)))))
  = snd (patch_frame "frame_00001.png" "frames" tiny
           (one_frame_dir (Image frame_4x2)))
  ∧ fst (patch_frame "frame_00001.png" "frames" tiny
           (one_frame_dir (Image frame_4x2))) = Ret true.
Proof.
  split; [|reflexivity].
  apply (proj2 (patch_frame_rerun "frame_00001.png" "frames" tiny
                  (one_frame_dir (Image frame_4x2)))).
  simpl. lia.
Defined.

(** ** Where the pixels of the target come from *)




(** ** More on the geometry *)

(** X4.  For every accepted configuration the adjacent source shares no
    position with the target, and the mirror source shares one exactly when
    [-patch_height < mirror_offset < mirror_height]. *)
Theorem sources_and_target_overlap c height width g :
  resolve c height width = Some g →
  (∀ i j, in_rect (adj_src g) i j → ¬ in_rect (wm g) i j)
  ∧ ((∃ i j, in_rect (mirror_src g) i j ∧ in_rect (wm g) i j) ↔
     - patch_height c < mirror_offset c ∧ mirror_offset c < mirror_height c).
Proof.
  intros Hres. pose proof (resolve_inside _ _ _ _ Hres) as (Hm & Ha & Hw).
  apply resolve_Some in Hres as [Hg _].
  unfold inside in *. rewrite Hg in *. unfold in_rect. simpl in *.
  split; [intros i j; lia|]. split.
  - intros (i & j & Hin1 & Hin2). lia.
  - intros [Hlo Hhi].
    exists (Z.to_nat (Z.max (height - (patch_y c + patch_height c))
                        (height - (patch_y c + patch_height c) - mirror_offset c))),
      (Z.to_nat (patch_x c)).
    lia.
Qed.

Lemma sources_and_target_overlap_witness :
  (∀ i j, in_rect (adj_src (geometry bushnell 720)) i j →
          ¬ in_rect (wm (geometry bushnell 720)) i j)
  ∧ ¬ ∃ i j, in_rect (mirror_src (geometry bushnell 720)) i j
             ∧ in_rect (wm (geometry bushnell 720)) i j.
Proof.
  destruct (sources_and_target_overlap bushnell 720 1280 _ eq_refl) as [Hadj Hmir].
  split; [exact Hadj|]. intros Hex. apply Hmir in Hex. simpl in Hex. lia.
Defined.

(** X5.  The rectangles are anchored to the bottom-left corner: a
    configuration accepted for a frame is accepted for every frame that is
    higher and wider, with the same columns and with the rows moved down by
    the added height. *)
Theorem resolve_larger_frame c height width g dh dw :
  resolve c height width = Some g → 0 ≤ dh → 0 ≤ dw →
  resolve c (height + dh) (width + dw) = Some (shift_geometry dh g).
Proof.
  intros Hres Hdh Hdw. pose proof (resolve_inside _ _ _ _ Hres) as (Hm & Ha & Hw).
  apply resolve_Some in Hres as [Hg _]. apply resolve_Some.
  assert (Hshift : shift_geometry dh g = geometry c (height + dh)).
  { rewrite Hg. unfold shift_geometry, shift_rect, geometry. simpl.
    f_equal; f_equal; lia. }
  split; [done|]. rewrite Hshift. apply coords_ok_spec.
  unfold inside in *. rewrite Hg in *. simpl in *. lia.
Qed.

Lemma resolve_larger_frame_witness :
  resolve bushnell 1080 1920 = Some (shift_geometry 360 (geometry bushnell 720)).
Proof.
  exact (resolve_larger_frame bushnell 720 1280 (geometry bushnell 720) 360 640
           eq_refl ltac:(lia) ltac:(lia)).
Defined.

(** X6.  With the defaults of the command line a frame is accepted exactly
    when it is at least 166 rows high and 220 columns wide. *)
Theorem bushnell_minimum_frame height width :
  is_Some (resolve bushnell height width) ↔ 166 ≤ height ∧ 220 ≤ width.
Proof.
  rewrite resolve_accepts_iff. unfold fits. simpl. lia.
Qed.

(** ** More on [patch_frames] *)

Section BatchFacts.
Variables (tmpdir : string) (c : PatchConfig).

Let worker := fun fname => _global_patch_frame_wrapper fname tmpdir c.

(** A path that belongs to none of the files is left alone. *)
Lemma pool_map_other files disk other :
  (∀ f, f ∈ files → os_path_join tmpdir f ≠ other) →
  snd (pool_map worker files disk) !! other = disk !! other.
Proof.
  revert disk. induction files as [|f files IH]; intros disk Hother; [done|].
  simpl. unfold worker at 1, _global_patch_frame_wrapper.
  destruct (patch_frame_returns f tmpdir c disk) as [b Hb].
  pose proof (patch_frame_other f tmpdir c disk other) as H1.
  destruct (patch_frame f tmpdir c disk) as [r d1]. simpl in Hb, H1. subst r.
  specialize (IH d1).
  destruct (pool_map worker files d1) as [[rs|e] d2]; simpl in *.
  - rewrite IH.
    + apply H1. intros ->. by apply (Hother f); [left|].
    + intros f' Hf'. apply Hother. by right.
  - rewrite IH.
    + apply H1. intros ->. by apply (Hother f); [left|].
    + intros f' Hf'. apply Hother. by right.
Qed.

End BatchFacts.




(** X8.  [patch_frames] changes no file other than the frame files: a path
    that is not the path of an entry ending in [.png] holds what it held. *)
Theorem patch_frames_other_paths entries tmpdir c n_jobs disk other :
  (∀ f, f ∈ entries → endswith f ".png" = true → os_path_join tmpdir f ≠ other) →
  snd (patch_frames entries tmpdir c n_jobs disk) !! other = disk !! other.
Proof.
  intros Hother. unfold patch_frames.
  destruct (length (frame_files_of entries) =? 0)%nat; [done|].
  destruct (Z.le_gt_cases n_jobs 0) as [Hjobs|Hjobs].
  { by rewrite process_map_down. }
  rewrite process_map_up by lia.
  pose proof (pool_map_other tmpdir c (frame_files_of entries) disk other) as Hpm.
  destruct (pool_map
              (fun fname => _global_patch_frame_wrapper fname tmpdir c)
              (frame_files_of entries) disk) as [[rs|e] d']; simpl in *;
    apply Hpm; intros f Hf; rewrite frame_files_of_perm in Hf;
    apply list_elem_of_filter in Hf as [Hpng Hf]; by apply Hother.
Qed.

Lemma patch_frames_other_paths_witness :
  snd (patch_frames ten_entries "frames" tiny 4 ten_frames_dir)
    !! "frames/notes.txt" = Some Unreadable.
Proof.
  refine (patch_frames_other_paths ten_entries "frames" tiny 4 ten_frames_dir
            "frames/notes.txt" _).
  intros f Hf Hpng.
  repeat (apply elem_of_cons in Hf as [->|Hf]; [discriminate|]).
  by apply elem_of_nil in Hf.
Defined.

Lemma Ret_fmap_inj {A} (xs ys : list A) :
  Ret <$> xs = Ret <$> ys → xs = ys.
Proof.
  revert ys. induction xs as [|x xs IH]; intros [|y ys] Heq;
    try discriminate Heq; [done|].
  rewrite !fmap_cons in Heq. injection Heq as -> Hrest. f_equal. by apply IH.
Qed.

(** X9.  The names of a directory are distinct and not absolute paths.
    Then running [patch_frames] a second time, on the directory the first
    run left, reports what the first run reported. *)
Theorem patch_frames_rerun entries tmpdir c n_jobs disk :
  NoDup entries →
  Forall (fun f => String.prefix "/" f = false) entries →
  fst (patch_frames entries tmpdir c n_jobs
         (snd (patch_frames entries tmpdir c n_jobs disk)))
  = fst (patch_frames entries tmpdir c n_jobs disk).
Proof.
  intros Hnd Hrel. unfold patch_frames.
  destruct (length (frame_files_of entries) =? 0)%nat eqn:Hn; simpl.
  - done.
  - destruct (Z.le_gt_cases n_jobs 0) as [Hjobs|Hjobs].
    { by rewrite !process_map_down. }
    rewrite !process_map_up by lia.
    pose proof (frame_files_of_paths entries tmpdir Hnd Hrel) as Hpaths.
    destruct (pool_map_returns tmpdir c (frame_files_of entries) disk)
      as (r1 & d1 & Hrun1 & _).
    destruct (pool_map_returns tmpdir c (frame_files_of entries) d1)
      as (r2 & d2 & Hrun2 & _).
    rewrite Hrun1. simpl. rewrite Hrun2. simpl.
    destruct (pool_map_independent tmpdir c _ _ _ _ Hpaths Hrun1)
      as (Hres1 & Hfiles1 & _).
    destruct (pool_map_independent tmpdir c _ _ _ _ Hpaths Hrun2)
      as (Hres2 & _ & _).
    assert (Hsame : r2 = r1).
    { apply Ret_fmap_inj. rewrite Hres1, Hres2.
      apply list_fmap_ext. intros i f Hf.
      apply list_elem_of_lookup_2 in Hf.
      rewrite <- (rerun_verdict f tmpdir c disk).
      apply patch_frame_result_agree. by apply Hfiles1. }
    by rewrite Hsame.
Qed.

Lemma patch_frames_rerun_witness :
  fst (patch_frames ten_entries "frames" tiny 4
         (snd (patch_frames ten_entries "frames" tiny 4 ten_frames_dir)))
  = Ret (Patched 8 10).
Proof.
  assert (Hnd : NoDup ten_entries)
    by (apply (bool_decide_unpack _); exact I).
  assert (Hrel : Forall (fun f => String.prefix "/" f = false) ten_entries)
    by (repeat constructor).
  rewrite (patch_frames_rerun ten_entries "frames" tiny 4 ten_frames_dir Hnd Hrel).
  reflexivity.
Defined.

(** X10.  Two calls of [patch_frame] on different frame names of one
    directory do not see each other: either order leaves the same
    directory, and each call returns what it returns when run first. *)
Theorem patch_frame_commute f1 f2 input_dir c disk :
  String.prefix "/" f1 = false → String.prefix "/" f2 = false → f1 ≠ f2 →
  snd (patch_frame f1 input_dir c (snd (patch_frame f2 input_dir c disk)))
  = snd (patch_frame f2 input_dir c (snd (patch_frame f1 input_dir c disk)))
  ∧ fst (patch_frame f1 input_dir c (snd (patch_frame f2 input_dir c disk)))
    = fst (patch_frame f1 input_dir c disk)
  ∧ fst (patch_frame f2 input_dir c (snd (patch_frame f1 input_dir c disk)))
    = fst (patch_frame f2 input_dir c disk).
Proof.
  intros H1 H2 Hne.
  assert (Hp : os_path_join input_dir f1 ≠ os_path_join input_dir f2).
  { intros Heq. by apply Hne, (os_path_join_inj input_dir). }
  split; [|split].
  - apply map_eq. intros k.
    destruct (decide (k = os_path_join input_dir f1)) as [->|Hk1].
    + rewrite (patch_frame_other f2) by done.
      apply patch_frame_file_agree. by apply patch_frame_other.
    + rewrite (patch_frame_other f1) by done.
      destruct (decide (k = os_path_join input_dir f2)) as [->|Hk2].
      * symmetry. apply patch_frame_file_agree.
        by apply patch_frame_other.
      * by rewrite !patch_frame_other.
  - apply patch_frame_result_agree. by apply patch_frame_other.
  - apply patch_frame_result_agree. apply patch_frame_other. congruence.
Qed.

Lemma patch_frame_commute_witness :
  snd (patch_frame "frame_00001.png" "frames" tiny
         (snd (patch_frame "frame_00002.png" "frames" tiny ten_frames_dir)))
  = snd (patch_frame "frame_00002.png" "frames" tiny
           (snd (patch_frame "frame_00001.png" "frames" tiny ten_frames_dir))).
Proof.
  refine (proj1 (patch_frame_commute "frame_00001.png" "frame_00002.png"
                   "frames" tiny ten_frames_dir _ _ _)); [done|done|discriminate].
Defined.

(** ** More on [get_fps] *)

Lemma str_contains_count sep (s : string) :
  str_contains sep s = false ↔ str_count sep s = 0%nat.
Proof.
  induction s as [|ch s IH]; simpl; [done|].
  rewrite orb_false_iff, IH. destruct (Ascii.eqb ch sep); simpl; split;
    try lia; try (intros [? ?]; done); intros; split; done || lia.
Qed.

Lemma length_str_split sep (s : string) :
  length (str_split sep s) = S (str_count sep s).
Proof.
  induction s as [|ch s IH]; simpl; [done|].
  destruct (Ascii.eqb ch sep); simpl; [by rewrite IH|].
  destruct (str_split sep s); simpl in *; lia.
Qed.

(** Splitting and joining again gives the string back. *)
Lemma str_join_split sep (s : string) : str_join sep (str_split sep s) = s.
Proof.
  induction s as [|ch s IH]; simpl; [done|].
  destruct (Ascii.eqb_spec ch sep) as [->|Hne].
  - pose proof (length_str_split sep s) as Hlen.
    destruct (str_split sep s) as [|p ps] eqn:Hsplit; [done|].
    change (str_join sep ("" :: p :: ps))
      with ("" +:+ String sep (str_join sep (p :: ps))).
    rewrite IH. done.
  - pose proof (length_str_split sep s) as Hlen.
    destruct (str_split sep s) as [|p ps] eqn:Hsplit; [done|].
    destruct ps as [|q ps].
    + simpl in *. by rewrite IH.
    + change (str_join sep (String ch p :: q :: ps))
        with (String ch p +:+ String sep (str_join sep (q :: ps))).
      change (str_join sep (p :: q :: ps))
        with (p +:+ String sep (str_join sep (q :: ps))) in IH.
      rewrite app_String. by rewrite IH.
Qed.

(** No piece holds a separator. *)
Lemma str_split_pieces sep (s : string) :
  Forall (fun piece => str_count sep piece = 0%nat) (str_split sep s).
Proof.
  induction s as [|ch s IH]; simpl; [by repeat constructor|].
  destruct (Ascii.eqb ch sep) eqn:Hch; [by constructor|].
  destruct (str_split sep s) as [|p ps]; [repeat constructor; simpl; by rewrite Hch|].
  apply Forall_cons in IH as [Hp Hps]. constructor; [|done].
  simpl. by rewrite Hch, Hp.
Qed.

(** X11.  [get_fps] raises nothing but [ValueError]; it raises it for
    every string with two or more slashes; and it returns [x] exactly when
    the string has no slash and [float] reads it as [x], or has one slash,
    [float] reads both sides, and [x] is their quotient, or the left side
    when the right side is zero. *)
Theorem get_fps_outcomes py_float (s : string) :
  (∀ e, get_fps py_float s = Raise e → e = ValueError)
  ∧ ((2 ≤ str_count "/" s)%nat → get_fps py_float s = Raise ValueError)
  ∧ (∀ x, get_fps py_float s = Ret x ↔
          (str_count "/" s = 0%nat ∧ py_float s = Some x)
          ∨ ∃ num denom a b,
              s = num +:+ "/" +:+ denom
              ∧ str_count "/" num = 0%nat ∧ str_count "/" denom = 0%nat
              ∧ py_float num = Some a ∧ py_float denom = Some b
              ∧ x = if PrimFloat.eqb b 0 then a else PrimFloat.div a b).
Proof.
  split; [|split].
  - intros e. unfold get_fps, py_bool, py_truediv.
    repeat case_match; simplify_eq/=; congruence.
  - intros Hmany. unfold get_fps.
    destruct (str_contains "/" s) eqn:Hc.
    + pose proof (length_str_split "/" s) as Hlen.
      destruct (mapM py_float (str_split "/" s)) as [xs|] eqn:Hm; [|done].
      apply length_mapM in Hm. rewrite Hlen in Hm.
      destruct xs as [|x1 [|x2 [|x3 xs]]]; simpl in Hm; try done; lia.
    + apply str_contains_count in Hc. lia.
  - intros x. split.
    + unfold get_fps. destruct (str_contains "/" s) eqn:Hc.
      * destruct (mapM py_float (str_split "/" s)) as [xs|] eqn:Hm; [|done].
        destruct xs as [|a [|b [|? ?]]]; try done.
        apply mapM_Some_1 in Hm.
        pose proof (str_join_split "/" s) as Hjoin.
        pose proof (str_split_pieces "/" s) as Hpieces.
        inversion Hm as [|num ? pieces ? Ha Hm' Heq1]; subst.
        inversion Hm' as [|denom ? pieces' ? Hb Hm'' Heq2]; subst.
        inversion Hm''; subst.
        rewrite <- Heq1 in Hjoin, Hpieces.
        apply Forall_cons in Hpieces as [Hn Hpieces].
        apply Forall_cons in Hpieces as [Hd _].
        intros Hx. right. exists num, denom, a, b.
        split; [by rewrite <- Hjoin|]. repeat (split; [done|]).
        unfold py_bool, py_truediv in Hx.
        destruct (PrimFloat.eqb b 0); simpl in Hx; congruence.
      * destruct (py_float s) as [y|] eqn:Hy; [|done].
        intros [= <-]. left. split; [|done]. by apply str_contains_count.
    + intros [[Hc Hx]|(num & denom & a & b & -> & Hn & Hd & Ha & Hb & ->)].
      * apply get_fps_plain; [|done]. by apply str_contains_count.
      * apply get_fps_rational; try done; by apply str_contains_count.
Qed.

Lemma get_fps_outcomes_witness :
  get_fps float_of_numeral "30/1/1" = Raise ValueError.
Proof.
  refine (proj1 (proj2 (get_fps_outcomes float_of_numeral "30/1/1")) _).
  simpl. lia.
Defined.

(** ** The order of the directory listing *)

Lemma frame_files_of_sorted entries :
  Sorted String.le (frame_files_of entries).
Proof. apply (Sorted_merge_sort String.le). Qed.

(** X12.  [os.listdir] promises no order.  [patch_frames] sorts the frame
    files, so two listings of the same names give the same calls in the same
    order: the same report and the same directory. *)
Theorem patch_frames_listing_order entries1 entries2 tmpdir c n_jobs disk :
  entries1 ≡ₚ entries2 →
  frame_files_of entries1 = frame_files_of entries2
  ∧ patch_frames entries1 tmpdir c n_jobs disk
    = patch_frames entries2 tmpdir c n_jobs disk.
Proof.
  intros Hperm.
  assert (Hfiles : frame_files_of entries1 = frame_files_of entries2).
  { apply (Sorted_unique String.le); [apply frame_files_of_sorted..|].
    by rewrite !frame_files_of_perm, Hperm. }
  split; [done|]. unfold patch_frames. by rewrite Hfiles.
Qed.

Lemma patch_frames_listing_order_witness :
  frame_files_of ["b.png"; "notes.txt"; "a.png"]
  = frame_files_of ["notes.txt"; "a.png"; "b.png"]
  ∧ frame_files_of ["notes.txt"; "a.png"; "b.png"] = ["a.png"; "b.png"].
Proof.
  split; [|reflexivity].
  refine (proj1 (patch_frames_listing_order
                   ["b.png"; "notes.txt"; "a.png"] ["notes.txt"; "a.png"; "b.png"]
                   "frames" tiny 4 ∅ _)).
  apply (Permutation_cons_append ["notes.txt"; "a.png"] "b.png").
Defined.
